(** * Commit helper ([scripts/commit_and_push.py]): model and properties

    The script normalises a fixed list of text files, runs a whitespace
    gate, stages the list, and commits and pushes unless asked for a dry
    run.  This development embeds it in three layers:

    - [Py]: the pieces of the Python runtime the script calls
      ([bytes.replace], the strict UTF-8 codec, [str.splitlines],
      [str.rstrip], [str.strip], [str.startswith], [str.join], and the
      string form of a [pathlib.Path]);
    - [Script]: the script itself, written in a state-and-exception monad
      over a world made of a file store and an external command runner;
    - the properties, grouped by the function they speak about.

    Conventions.  A byte is an [N] below 256 and a [str] is a list of code
    points, also [N].  The log of a run lists its events most recent first.

    What is an input of the model.  What [argparse] makes of the command
    line: a namespace, or the exit it raises itself.  What an external
    command does: it may fail to start, end with any return code that
    [subprocess] reports, and write output that does not decode.  What the
    file store holds at a path: nothing, something that is not a regular
    file, a regular file, or an entry that the operating system refuses to
    stat, to open for reading, or to open for writing.  Which characters
    beyond ASCII the encoding of [sys.stdout] covers.

    What the model takes for granted.  [os.chdir] to the directory that
    [git] reports succeeds; the standard streams stay open, and
    [sys.stderr] escapes what it cannot encode; a file that has been opened
    is read and written in full; two different path strings name two
    different files; the host is POSIX, so that text-mode writes leave line
    feeds alone and the status of the process is the low byte of the
    integer handed to [SystemExit]. *)

From Stdlib Require Import NArith ZArith List Lia Bool ZifyBool String Ascii.
From stdpp Require Import base option list gmap.

Local Open Scope N_scope.

Ltac Zify.zify_post_hook ::= Z.to_euclidean_division_equations.

(** ** Python runtime *)

Module Py.

(** [str] literals: the code points of an ASCII string. *)
Definition str (s : string) : list N :=
  map N_of_ascii (list_ascii_of_string s).

Definition LF : N := 10.
Definition CR : N := 13.
Definition TAB : N := 9.
Definition SPACE : N := 32.

(** Membership of a code point in the argument of [rstrip]/[lstrip]. *)
Definition mem (c : N) (chars : list N) : bool := existsb (N.eqb c) chars.

(** [s.startswith(prefix)] *)
Fixpoint startswith (s prefix : list N) : bool :=
  match prefix, s with
  | [], _ => true
  | p :: prefix', c :: s' => (c =? p) && startswith s' prefix'
  | _ :: _, [] => false
  end.

(** [s.startswith(tuple)]: true when one member of the tuple is a prefix. *)
Definition startswith_any (s : list N) (prefixes : list (list N)) : bool :=
  existsb (startswith s) prefixes.

(** [s.endswith("\n")] *)
Definition endswith_lf (s : list N) : bool :=
  match last s with Some c => c =? LF | None => false end.

Fixpoint dropwhile (p : N -> bool) (s : list N) : list N :=
  match s with
  | [] => []
  | c :: s' => if p c then dropwhile p s' else s
  end.

(** [s.lstrip(chars)], [s.rstrip(chars)] *)
Definition lstrip (chars s : list N) : list N :=
  dropwhile (fun c => mem c chars) s.

Definition rstrip (chars s : list N) : list N :=
  rev (dropwhile (fun c => mem c chars) (rev s)).

(** [str.isspace] on one code point, as CPython's [_PyUnicode_IsWhitespace]. *)
Definition is_whitespace (c : N) : bool :=
  ((9 <=? c) && (c <=? 13)) || ((28 <=? c) && (c <=? 32))
  || (c =? 133) || (c =? 160) || (c =? 5760)
  || ((8192 <=? c) && (c <=? 8202))
  || (c =? 8232) || (c =? 8233) || (c =? 8239) || (c =? 8287)
  || (c =? 12288).

(** [s.strip()] with no argument. *)
Definition strip (s : list N) : list N :=
  rev (dropwhile is_whitespace (rev (dropwhile is_whitespace s))).

(** Line boundaries of [str.splitlines], as CPython's
    [_PyUnicode_IsLinebreak]. *)
Definition is_linebreak (c : N) : bool :=
  ((10 <=? c) && (c <=? 13)) || ((28 <=? c) && (c <=? 30))
  || (c =? 133) || (c =? 8232) || (c =? 8233).

(** [s.splitlines(keepends)].  [line] is the part of the current line
    already scanned; a carriage return directly followed by a line feed is
    one boundary; a final line with no boundary is kept when not empty. *)
Fixpoint splitlines_from (keepends : bool) (line s : list N) : list (list N) :=
  match s with
  | [] => match line with [] => [] | _ :: _ => [line] end
  | c :: rest =>
      if is_linebreak c then
        match rest with
        | d :: rest' =>
            if (c =? CR) && (d =? LF)
            then (line ++ (if keepends then [c; d] else []))
                   :: splitlines_from keepends [] rest'
            else (line ++ (if keepends then [c] else []))
                   :: splitlines_from keepends [] rest
        | [] => [line ++ (if keepends then [c] else [])]
        end
      else splitlines_from keepends (line ++ [c]) rest
  end.

Definition splitlines (keepends : bool) (s : list N) : list (list N) :=
  splitlines_from keepends [] s.

(** [sep.join(parts)] *)
Fixpoint join (sep : list N) (parts : list (list N)) : list N :=
  match parts with
  | [] => []
  | [p] => p
  | p :: ps => p ++ sep ++ join sep ps
  end.

(** [b.replace(b"\r\n", b"\n")]: leftmost, non-overlapping occurrences. *)
Fixpoint replace_crlf (b : list N) : list N :=
  match b with
  | [] => []
  | x :: rest =>
      match rest with
      | y :: rest' =>
          if (x =? CR) && (y =? LF) then LF :: replace_crlf rest'
          else x :: replace_crlf rest
      | [] => [x]
      end
  end.

(** *** Strict UTF-8 *)

Definition is_cont (b : N) : bool := (128 <=? b) && (b <=? 191).

(** [b.decode("utf-8")]: [None] stands for [UnicodeDecodeError].  Shortest
    forms only, no surrogates, nothing above U+10FFFF. *)
Fixpoint utf8_decode (b : list N) : option (list N) :=
  match b with
  | [] => Some []
  | b0 :: r0 =>
      if b0 <? 128 then cons b0 <$> utf8_decode r0
      else if b0 <? 194 then None
      else if b0 <? 224 then
        match r0 with
        | b1 :: r1 =>
            if is_cont b1
            then cons ((b0 - 192) * 64 + (b1 - 128)) <$> utf8_decode r1
            else None
        | _ => None
        end
      else if b0 <? 240 then
        match r0 with
        | b1 :: b2 :: r2 =>
            if is_cont b1 && is_cont b2
               && negb ((b0 =? 224) && (b1 <? 160))
               && negb ((b0 =? 237) && (160 <=? b1))
            then cons (((b0 - 224) * 64 + (b1 - 128)) * 64 + (b2 - 128))
                   <$> utf8_decode r2
            else None
        | _ => None
        end
      else if b0 <? 245 then
        match r0 with
        | b1 :: b2 :: b3 :: r3 =>
            if is_cont b1 && is_cont b2 && is_cont b3
               && negb ((b0 =? 240) && (b1 <? 144))
               && negb ((b0 =? 244) && (144 <=? b1))
            then cons ((((b0 - 240) * 64 + (b1 - 128)) * 64 + (b2 - 128)) * 64
                       + (b3 - 128))
                   <$> utf8_decode r3
            else None
        | _ => None
        end
      else None
  end.

Definition is_surrogate (c : N) : bool := (55296 <=? c) && (c <=? 57343).

(** The bytes of one code point; [None] stands for [UnicodeEncodeError]
    (a lone surrogate). *)
Definition utf8_encode_char (c : N) : option (list N) :=
  if c <? 128 then Some [c]
  else if c <? 2048 then Some [192 + c / 64; 128 + c mod 64]
  else if c <? 65536 then
    if is_surrogate c then None
    else Some [224 + c / 4096; 128 + (c / 64) mod 64; 128 + c mod 64]
  else if c <? 1114112 then
    Some [240 + c / 262144; 128 + (c / 4096) mod 64;
          128 + (c / 64) mod 64; 128 + c mod 64]
  else None.

(** [s.encode("utf-8")] *)
Fixpoint utf8_encode (s : list N) : option (list N) :=
  match s with
  | [] => Some []
  | c :: s' =>
      match utf8_encode_char c, utf8_encode s' with
      | Some e, Some r => Some (e ++ r)
      | _, _ => None
      end
  end.

(** *** [pathlib] on POSIX *)

Definition SLASH : N := 47.

(** [s.split("/")], with [part] the piece already scanned. *)
Fixpoint split_slash_from (part s : list N) : list (list N) :=
  match s with
  | [] => [part]
  | c :: rest =>
      if c =? SLASH then part :: split_slash_from [] rest
      else split_slash_from (part ++ [c]) rest
  end.

(** The pieces that [PurePosixPath] keeps as components: all but the
    empty ones and ["."]. *)
Definition is_component (x : list N) : bool :=
  match x with
  | [] => false
  | [c] => negb (c =? 46)
  | _ => true
  end.

(** The root that [PurePosixPath] reads off the leading slashes: exactly
    two are kept, any other number stands for one. *)
Definition path_root (s : list N) : list N :=
  match (length s - length (lstrip [SLASH] s))%nat with
  | O => []
  | 2%nat => [SLASH; SLASH]
  | _ => [SLASH]
  end.

(** [str(Path(s))]: the root, then the components joined by single
    slashes; ["."] when nothing is left. *)
Definition pure_path (s : list N) : list N :=
  let parts := List.filter is_component (split_slash_from [] (lstrip [SLASH] s)) in
  match path_root s ++ join [SLASH] parts with
  | [] => [46]
  | p => p
  end.

End Py.

Import Py.

(** ** The script *)

Module Script.

(** *** Module constants *)

Definition DEFAULT_MESSAGE : list N :=
  str "Fix TypeScript build for Vercel" ++ [LF; LF]
  ++ str "- Fix metric config typing and nullable fields" ++ [LF]
  ++ str "- Add Vite env typings and safe JSON parsing" ++ [LF]
  ++ str "- Add migration progress output" ++ [LF].

Definition FILES_TO_STAGE : list (list N) :=
  [ str "scripts/migrate-to-mongodb.js";
    str "scripts/commit_and_push.py";
    str "src/vite-env.d.ts";
    str "src/types/school.ts";
    str "src/components/Dashboard.tsx";
    str "src/components/SchoolCard.tsx";
    str "src/pages/SchoolsPage.tsx";
    str "src/components/pipeline/FillDataMode.tsx";
    str "src/components/pipeline/FunnelSelector.tsx";
    str "src/components/pipeline/NumericMetricsDistribution.tsx";
    str "src/components/pipeline/ResolveUnknownMode.tsx";
    str "src/config/api.ts" ].

Definition FORBIDDEN_PATH_PREFIXES : list (list N) :=
  [ str ".env"; str "server/data/" ].

(** The horizontal ellipsis U+2026 that ends the progress messages. *)
Definition ELLIPSIS : list N := [8230].

(** *** Pure parts *)

Definition is_forbidden_path (rel : list N) : bool :=
  if startswith_any rel FORBIDDEN_PATH_PREFIXES then true else false.

(** The body of the loop over [lines] in [normalize_text_file]. *)
Definition clean_line (ln : list N) : list N :=
  if endswith_lf ln
  then rstrip [SPACE; TAB; CR; LF] ln ++ [LF]
  else rstrip [SPACE; TAB; CR; LF] ln.

(** [cleaned] as computed from [text] in [normalize_text_file]. *)
Definition cleaned_text (text : list N) : list N :=
  concat (map clean_line (splitlines true text)).

(** *** The world outside the interpreter *)

(** What the store holds at a path, as far as the script can tell.  [Dir]
    is anything that exists and is not a regular file.  [File] is a
    regular file that the process may read and rewrite, [ReadOnly] one it
    may read but not open for writing, [NoAccess] one it may not open at
    all.  [Unreachable] is a path whose [stat] fails with an error that
    [Path.exists] does not take for absence, such as a directory on the
    way that may not be searched or a name that is too long. *)
Inductive node :=
  | Dir
  | File (content : list N)
  | ReadOnly (content : list N)
  | NoAccess
  | Unreachable.

(** [os.linesep] of the host; the script is run on POSIX hosts. *)
Definition os_linesep : list N := [LF].

(** What a text-mode file object with the default [newline=None] does to
    the characters written to it. *)
Definition translate_newlines (s : list N) : list N :=
  flat_map (fun c => if c =? LF then os_linesep else [c]) s.

(** [posixpath.join(cwd, rel)]: the path the kernel resolves [rel] to. *)
Definition resolve (cwd rel : list N) : list N :=
  if startswith rel (str "/") then rel
  else match last cwd with
       | Some 47 => cwd ++ rel
       | _ => cwd ++ str "/" ++ rel
       end.

(** Everything else the external tool sees (index, refs, remotes, hooks)
    is kept abstract in [ext]. *)
Record World (Ext : Type) := mkWorld {
  cwd : list N;
  files : gmap (list N) node;
  ext : Ext
}.
Arguments mkWorld {Ext}.
Arguments cwd {Ext}.
Arguments files {Ext}.
Arguments ext {Ext}.

(** How a child process ended: it exited by itself, or a signal killed
    it. *)
Inductive ending :=
  | Exited (code : Z)
  | Killed (signal : N).

(** The [returncode] that [subprocess] reports on POSIX: the low byte of
    the exit code, or minus the number of the signal, of which the wait
    status keeps seven bits.  No signal has the number 0: in a wait status
    it stands for a process that exited. *)
Definition returncode_of (e : ending) : Z :=
  match e with
  | Exited code => (code mod 256)%Z
  | Killed signal => (- Z.of_N (signal mod 128))%Z
  end.

(** What [subprocess.run(cmd, text=True, ...)] comes to.  [NotStarted]: the
    program could not be executed.  [Ended how output]: the child ran and
    ended; [output] is the text decoded from what it wrote, [None] when
    those bytes do not decode in the encoding of the locale. *)
Inductive reply :=
  | NotStarted
  | Ended (how : ending) (output : option (list N)).

(** The events of a run.  [Spawn] is a command that ran to its end, with
    what was captured of its output; [Garbled] is a command that ran and
    whose captured output did not decode. *)
Inductive event :=
  | Spawn (cmd : list (list N)) (capture : bool) (returncode : Z) (output : list N)
  | Garbled (cmd : list (list N))
  | Chdir (dir : list N)
  | Stat (path : list N)
  | ReadBytes (path : list N)
  | WriteText (path : list N) (data : list N)
  | Stdout (text : list N)
  | Stderr (text : list N).

Record State (Ext : Type) := mkState {
  world : World Ext;
  log : list event
}.
Arguments mkState {Ext}.
Arguments world {Ext}.
Arguments log {Ext}.

(** *** Exceptions and the monad *)

Inductive exit_arg :=
  | ExitCode (n : Z)
  | ExitMsg (msg : list N).

Inductive exn :=
  | SystemExit (arg : exit_arg)
  | UnicodeDecodeError
  | UnicodeEncodeError
  | AttributeError
  | OSError.

Inductive result (A : Type) :=
  | Ret (a : A)
  | Raise (e : exn).
Arguments Ret {A}.
Arguments Raise {A}.

Definition M (Ext A : Type) : Type := State Ext -> result A * State Ext.

Definition ret {Ext A} (a : A) : M Ext A := fun st => (Ret a, st).

Definition raise {Ext A} (e : exn) : M Ext A := fun st => (Raise e, st).

Definition bind {Ext A B} (m : M Ext A) (k : A -> M Ext B) : M Ext B :=
  fun st =>
    match m st with
    | (Ret a, st') => k a st'
    | (Raise e, st') => (Raise e, st')
    end.

Declare Scope script_scope.
Delimit Scope script_scope with script.
Notation "x <- c1 ;; c2" := (bind c1 (fun x => c2))
  (at level 100, c1 at next level, right associativity) : script_scope.
Notation "c1 ;; c2" := (bind c1 (fun _ => c2))
  (at level 100, right associativity) : script_scope.

(** The status the operating system sees once the interpreter ends: the
    low byte of the integer that [raise SystemExit(main())] or a
    [SystemExit(n)] carries, and 1 for [SystemExit(message)] and for any
    other uncaught exception. *)
Definition exit_status (r : result Z) : Z :=
  match r with
  | Ret n => (n mod 256)%Z
  | Raise (SystemExit (ExitCode n)) => (n mod 256)%Z
  | Raise _ => 1%Z
  end.

Record CompletedProcess := mkCompleted {
  returncode : Z;
  stdout : option (list N)
}.

Record Namespace := mkArgs {
  message : list N;
  dry_run : bool
}.

(** What [parser.parse_args()] makes of the command line: the namespace,
    or one of the exits that [argparse] raises itself, [SystemExit(2)]
    after a usage message and [SystemExit(0)] after the help text. *)
Inductive parsed :=
  | Parsed (args : Namespace)
  | UsageError
  | HelpShown.

Section WithTool.

Context {Ext : Type}.

(** The external tool: what a command line makes of the world. *)
Variable subprocess_run :
  list (list N) -> bool -> World Ext -> reply * World Ext.

(** The characters beyond ASCII that the encoding of [sys.stdout]
    covers. *)
Variable stdout_encodes : N -> bool.

Local Open Scope script_scope.

Definition emit (e : event) : M Ext unit :=
  fun st => (Ret tt, mkState (world st) (e :: log st)).

Definition encodable (c : N) : bool := (c <? 128) || stdout_encodes c.

(** [print(s)]: the strict encoder of [sys.stdout] raises on the first
    character it does not cover, before anything is written. *)
Definition print (s : list N) : M Ext unit :=
  if forallb encodable s then emit (Stdout (s ++ [LF]))
  else raise UnicodeEncodeError.

(** [print(s, file=sys.stderr)] and [sys.stderr.write(s)] *)
Definition eprint (s : list N) : M Ext unit := emit (Stderr (s ++ [LF])).

Definition stderr_write (s : list N) : M Ext unit := emit (Stderr s).

(** [subprocess.run(cmd, text=True)], with [stdout=PIPE, stderr=STDOUT]
    when [capture] is set.  Without the pipe nothing is decoded. *)
Definition spawn (cmd : list (list N)) (capture : bool) : M Ext CompletedProcess :=
  fun st =>
    match subprocess_run cmd capture (world st) with
    | (NotStarted, _) => (Raise OSError, st)
    | (Ended how output, w) =>
        let rc := returncode_of how in
        if capture then
          match output with
          | Some out =>
              (Ret (mkCompleted rc (Some out)),
               mkState w (Spawn cmd true rc out :: log st))
          | None => (Raise UnicodeDecodeError, mkState w (Garbled cmd :: log st))
          end
        else (Ret (mkCompleted rc None), mkState w (Spawn cmd false rc [] :: log st))
    end.

(** [os.chdir(dir)] *)
Definition chdir (dir : list N) : M Ext unit :=
  fun st =>
    let w := world st in
    (Ret tt, mkState (mkWorld dir (files w) (ext w)) (Chdir dir :: log st)).

(** [path.exists()] and [path.is_file()]: both call [stat], and pass on
    every error but those that mean absence. *)
Definition path_exists (path : list N) : M Ext bool :=
  fun st =>
    let p := resolve (cwd (world st)) path in
    match files (world st) !! p with
    | Some Unreachable => (Raise OSError, st)
    | Some _ => (Ret true, mkState (world st) (Stat p :: log st))
    | None => (Ret false, mkState (world st) (Stat p :: log st))
    end.

Definition path_is_file (path : list N) : M Ext bool :=
  fun st =>
    let p := resolve (cwd (world st)) path in
    match files (world st) !! p with
    | Some Unreachable => (Raise OSError, st)
    | Some Dir | None => (Ret false, mkState (world st) (Stat p :: log st))
    | Some _ => (Ret true, mkState (world st) (Stat p :: log st))
    end.

(** [path.read_bytes()] *)
Definition read_bytes (path : list N) : M Ext (list N) :=
  fun st =>
    let p := resolve (cwd (world st)) path in
    match files (world st) !! p with
    | Some (File content) | Some (ReadOnly content) =>
        (Ret content, mkState (world st) (ReadBytes p :: log st))
    | _ => (Raise OSError, st)
    end.

(** [path.write_text(text, encoding="utf-8")]: the file is opened for
    writing, which creates or truncates it, and the encoded text is
    written. *)
Definition write_text (path text : list N) : M Ext unit :=
  fun st =>
    let w := world st in
    let p := resolve (cwd w) path in
    match files w !! p with
    | None | Some (File _) =>
        match utf8_encode (translate_newlines text) with
        | Some data =>
            (Ret tt,
             mkState (mkWorld (cwd w) (<[p := File data]> (files w)) (ext w))
                     (WriteText p data :: log st))
        | None =>
            (Raise UnicodeEncodeError,
             mkState (mkWorld (cwd w) (<[p := File []]> (files w)) (ext w))
                     (WriteText p [] :: log st))
        end
    | Some _ => (Raise OSError, st)
    end.

(** [p.stdout or ""] *)
Definition stdout_or_empty (p : CompletedProcess) : list N :=
  match stdout p with Some s => s | None => [] end.

(** Attribute access on [p.stdout], which is [None] when not captured. *)
Definition stdout_attr (p : CompletedProcess) : M Ext (list N) :=
  match stdout p with
  | Some s => ret s
  | None => raise AttributeError
  end.

Definition nonempty {A} (l : list A) : bool :=
  match l with [] => false | _ :: _ => true end.

(** [parser.parse_args()] *)
Definition parse_args (cl : parsed) : M Ext Namespace :=
  match cl with
  | Parsed args => ret args
  | UsageError => raise (SystemExit (ExitCode 2))
  | HelpShown => raise (SystemExit (ExitCode 0))
  end.

(** *** The functions of the script *)

Definition run (cmd : list (list N)) (check capture : bool) : M Ext CompletedProcess :=
  p <- spawn cmd capture ;;
  if check && negb (returncode p =? 0)%Z then
    (if capture && nonempty (stdout_or_empty p)
     then stderr_write (stdout_or_empty p) else ret tt) ;;
    raise (SystemExit (ExitCode (returncode p)))
  else ret p.

(** The [Path] that [repo_root] returns is kept as its string form. *)
Definition repo_root : M Ext (list N) :=
  p <- run [str "git"; str "rev-parse"; str "--show-toplevel"] true true ;;
  let root := strip (stdout_or_empty p) in
  if nonempty root then ret (pure_path root)
  else raise (SystemExit (ExitMsg (str "Not a git repository (git rev-parse failed)."))).

(** [path] is the string form of the [Path] that the function receives. *)
Definition normalize_text_file (path : list N) : M Ext bool :=
  e <- path_exists path ;;
  f <- (if e then path_is_file path else ret false) ;;
  if negb e || negb f then ret false
  else
    raw <- read_bytes path ;;
    let raw2 := replace_crlf raw in
    match utf8_decode raw2 with
    | None => ret false
    | Some text =>
        let cleaned := cleaned_text text in
        match utf8_encode cleaned with
        | None => raise UnicodeEncodeError
        | Some encoded =>
            if bool_decide (encoded = raw) then ret false
            else write_text path cleaned ;; ret true
        end
    end.

Fixpoint normalize_files (files : list (list N)) : M Ext (list (list N)) :=
  match files with
  | [] => ret []
  | rel :: rest =>
      b <- normalize_text_file (pure_path rel) ;;
      changed <- normalize_files rest ;;
      ret (if b then rel :: changed else changed)
  end.

(** The loop under [# Safety checks] in [main]. *)
Fixpoint safety_checks (files : list (list N)) : M Ext unit :=
  match files with
  | [] => ret tt
  | f :: rest =>
      if is_forbidden_path f
      then raise (SystemExit (ExitMsg (str "Refusing to stage forbidden path: " ++ f)))
      else safety_checks rest
  end.

(** The loop that lists the forbidden staged files on the error stream. *)
Fixpoint eprint_each (names : list (list N)) : M Ext unit :=
  match names with
  | [] => ret tt
  | f :: rest => eprint (str " - " ++ f) ;; eprint_each rest
  end.

(** The body of [main] after the arguments are parsed, with the allowlist
    as a parameter. *)
Definition main_on (allowlist : list (list N)) (args : Namespace) : M Ext Z :=
  root <- repo_root ;;
  chdir root ;;
  safety_checks allowlist ;;
  print (str "Repo: " ++ root) ;;
  print (str "Normalizing line endings / whitespace" ++ ELLIPSIS) ;;
  changed <- normalize_files allowlist ;;
  (if nonempty changed
   then print (str "Normalized: " ++ join (str ", ") changed)
   else print (str "No normalization changes needed.")) ;;
  print (str "Checking for whitespace errors (git diff --check)" ++ ELLIPSIS) ;;
  p <- run [str "git"; str "diff"; str "--check"] false true ;;
  if negb (returncode p =? 0)%Z || nonempty (strip (stdout_or_empty p)) then
    stderr_write (stdout_or_empty p) ;;
    eprint ([LF] ++ str "Fix the issues above, then re-run the script.") ;;
    ret 2%Z
  else
    print (str "Staging files" ++ ELLIPSIS) ;;
    run ([str "git"; str "add"; str "--"] ++ allowlist) true false ;;
    q <- run [str "git"; str "diff"; str "--name-only"; str "--cached"] true true ;;
    out <- stdout_attr q ;;
    let staged_now := splitlines false out in
    if negb (nonempty staged_now) then
      print (str "Nothing to commit (no staged changes).") ;;
      ret 0%Z
    else
      let forbidden := filter (fun f => is_forbidden_path f = true) staged_now in
      if nonempty forbidden then
        eprint (str "ERROR: forbidden files are staged:") ;;
        eprint_each forbidden ;;
        eprint (str "Aborting. Run: git reset HEAD -- <file>") ;;
        ret 3%Z
      else if dry_run args then
        print (str "DRY RUN: would commit and push now.") ;;
        run [str "git"; str "status"] true false ;;
        ret 0%Z
      else
        let msg := strip (message args) in
        if negb (nonempty msg) then
          eprint (str "Empty commit message. Use -m.") ;;
          ret 4%Z
        else
          print (str "Committing" ++ ELLIPSIS) ;;
          run [str "git"; str "commit"; str "-m"; msg] true false ;;
          b <- run [str "git"; str "rev-parse"; str "--abbrev-ref"; str "HEAD"] true true ;;
          bout <- stdout_attr b ;;
          let branch := strip bout in
          if negb (nonempty branch) then
            eprint (str "Could not determine current branch.") ;;
            ret 5%Z
          else
            print (str "Pushing to origin/" ++ branch ++ ELLIPSIS) ;;
            run [str "git"; str "push"; str "origin"; branch] true false ;;
            print (str "Done.") ;;
            ret 0%Z.

(** [main]: the arguments are parsed, then the body runs on the shipped
    allowlist. *)
Definition main (cl : parsed) : M Ext Z :=
  args <- parse_args cl ;;
  main_on FILES_TO_STAGE args.

End WithTool.

End Script.

(** ** Shapes of byte and character sequences used in the statements *)

Module Shape.

Definition STRIPPED : list N := [SPACE; TAB; CR; LF].

Definition is_blank (c : N) : bool := (c =? SPACE) || (c =? TAB).

(** Whether what follows ends the line: a line feed, or the end of the
    sequence when [eof] says the sequence ends there. *)
Definition at_eol (eof : bool) (rest : list N) : bool :=
  match rest with
  | [] => eof
  | d :: _ => d =? LF
  end.

(** A path component holds no slash. *)
Definition slash_free (x : list N) : Prop := Forall (fun c => c <> SLASH) x.

(** No carriage return, and no space or tab directly before a line end. *)
Fixpoint tidy_then (eof : bool) (s : list N) : bool :=
  match s with
  | [] => true
  | c :: rest =>
      negb (c =? CR) && negb (is_blank c && at_eol eof rest) && tidy_then eof rest
  end.

(** Line feeds only and no trailing spaces or tabs on any line. *)
Definition tidy (s : list N) : bool := tidy_then true s.


Definition no_linebreak (s : list N) : Prop :=
  Forall (fun c => is_linebreak c = false) s.

(** [cleaned_text] resumed in the middle of a line. *)
Definition cleaned_from (line s : list N) : list N :=
  concat (map Script.clean_line (splitlines_from true line s)).

(** The clean transform of [normalize_text_file] on the bytes of a file:
    what the file holds afterwards when the bytes decode, [None] when they
    do not. *)
Definition clean_bytes (raw : list N) : option (list N) :=
  match utf8_decode (replace_crlf raw) with
  | Some text => utf8_encode (Script.cleaned_text text)
  | None => None
  end.

(** File system events of a log. *)
Definition is_fs_event (e : Script.event) : bool :=
  match e with
  | Script.Stat _ | Script.ReadBytes _ | Script.WriteText _ _ => true
  | _ => false
  end.

(** The event is a call of the given [git] subcommand. *)
Definition invokes (sub : list N) (e : Script.event) : bool :=
  match e with
  | Script.Spawn (g :: s :: _) _ _ _ | Script.Garbled (g :: s :: _) =>
      bool_decide (g = str "git") && bool_decide (s = sub)
  | _ => false
  end.

(** The most recent external command of a log that ran to its end, with
    its return code and output. *)
Fixpoint last_spawn (lg : list Script.event)
  : option (list (list N) * Z * list N) :=
  match lg with
  | [] => None
  | Script.Spawn cmd _ rc out :: _ => Some (cmd, rc, out)
  | _ :: lg' => last_spawn lg'
  end.

(** The event is neither a commit nor a push. *)
Definition keeps_history (e : Script.event) : bool :=
  negb (invokes (str "commit") e) && negb (invokes (str "push") e).

(** The command lines of [main]. *)
Definition GIT_TOPLEVEL : list (list N) :=
  [str "git"; str "rev-parse"; str "--show-toplevel"].
Definition GIT_DIFF_CHECK : list (list N) :=
  [str "git"; str "diff"; str "--check"].
Definition GIT_ADD (allowlist : list (list N)) : list (list N) :=
  [str "git"; str "add"; str "--"] ++ allowlist.
Definition GIT_STAGED : list (list N) :=
  [str "git"; str "diff"; str "--name-only"; str "--cached"].
Definition GIT_STATUS : list (list N) := [str "git"; str "status"].
Definition GIT_COMMIT (msg : list N) : list (list N) :=
  [str "git"; str "commit"; str "-m"; msg].
Definition GIT_BRANCH : list (list N) :=
  [str "git"; str "rev-parse"; str "--abbrev-ref"; str "HEAD"].
Definition GIT_PUSH (branch : list N) : list (list N) :=
  [str "git"; str "push"; str "origin"; branch].

(** What the dry-run short-circuit prints first. *)
Definition DRY_RUN_NOTICE : Script.event :=
  Script.Stdout (str "DRY RUN: would commit and push now." ++ [LF]).

(** The outcome of the dry-run short-circuit.  Either [git status] is the
    last command that ran, and the exit status is its return code as the
    operating system reports it, modulo 256: the run returns 0 when the
    command succeeds and raises [SystemExit] with its return code when it
    fails.  Or [git status] could not be started, and [OSError] ends the
    run right after the notice. *)
Definition status_decides (r : Script.result Z) (lg : list Script.event) : Prop :=
  (exists rc out,
     last_spawn lg = Some (GIT_STATUS, rc, out)
     /\ Script.exit_status r = (rc mod 256)%Z
     /\ (rc = 0%Z -> r = Script.Ret 0%Z)
     /\ (rc <> 0%Z -> r = Script.Raise (Script.SystemExit (Script.ExitCode rc))))
  \/ (head lg = Some DRY_RUN_NOTICE /\ r = Script.Raise Script.OSError).

(** Normalization is part of the run whose log is [lg]: the root query
    succeeded, [normalize_files] ran over the allowlist from the world the
    query left, with the working directory set to the root, it returned,
    and the whitespace gate then ran on the world it produced. *)
Definition normalization_ran {Ext}
    (sr : list (list N) -> bool -> Script.World Ext
          -> Script.reply * Script.World Ext)
    (allowlist : list (list N)) (w : Script.World Ext)
    (lg : list Script.event) : Prop :=
  exists how0 out0 w0 lg0 changed st1 how1 out1 w1,
    sr GIT_TOPLEVEL true w = (Script.Ended how0 (Some out0), w0)
    /\ Script.returncode_of how0 = 0%Z
    /\ Script.normalize_files allowlist
         (Script.mkState
            (Script.mkWorld (pure_path (strip out0)) (Script.files w0)
               (Script.ext w0)) lg0)
       = (Script.Ret changed, st1)
    /\ Script.log st1 `suffix_of` lg
    /\ sr GIT_DIFF_CHECK true (Script.world st1)
       = (Script.Ended how1 (Some out1), w1)
    /\ In (Script.Spawn GIT_DIFF_CHECK true (Script.returncode_of how1) out1) lg.

(** A byte or character that normalization never deletes: anything but
    a space, a tab or a carriage return. *)
Definition is_kept (c : N) : bool :=
  negb ((c =? SPACE) || (c =? TAB) || (c =? CR)).

(** The path a file system event concerns. *)
Definition event_path (e : Script.event) : option (list N) :=
  match e with
  | Script.Stat p | Script.ReadBytes p | Script.WriteText p _ => Some p
  | _ => None
  end.

(** The external commands of a log that ran to their end, with their
    return codes, most recent first. *)
Fixpoint spawned (lg : list Script.event) : list (list (list N) * Z) :=
  match lg with
  | [] => []
  | Script.Spawn cmd _ rc _ :: lg' => (cmd, rc) :: spawned lg'
  | _ :: lg' => spawned lg'
  end.

(** Every external command of a log that ran, those whose output did not
    decode included, most recent first. *)
Fixpoint issued (lg : list Script.event) : list (list (list N)) :=
  match lg with
  | [] => []
  | Script.Spawn cmd _ _ _ :: lg' | Script.Garbled cmd :: lg' => cmd :: issued lg'
  | _ :: lg' => issued lg'
  end.

(** The command lines of a complete run, in the order [main] issues them. *)
Definition script_of (allowlist : list (list N)) (args : Script.Namespace)
    (branch : list N) : list (list (list N)) :=
  [GIT_TOPLEVEL; GIT_DIFF_CHECK; GIT_ADD allowlist; GIT_STAGED]
  ++ (if Script.dry_run args then [GIT_STATUS]
      else [GIT_COMMIT (strip (Script.message args)); GIT_BRANCH;
            GIT_PUSH branch]).

(** What the clean transform makes of the content of a regular file leaves
    it as it is: the bytes do not decode, or they are clean already. *)
Definition clean_already (raw : list N) : Prop :=
  clean_bytes raw = None \/ clean_bytes raw = Some raw.

(** A path that [normalize_text_file] leaves alone, returning [False]: no
    regular file, or a readable file that does not decode or is clean
    already. *)
Definition settled {Ext} (w : Script.World Ext) (p : list N) : Prop :=
  match Script.files w !! p with
  | Some (Script.File raw) | Some (Script.ReadOnly raw) => clean_already raw
  | Some Script.NoAccess | Some Script.Unreachable => False
  | Some Script.Dir | None => True
  end.

(** A path at which the operating system refuses what
    [normalize_text_file] asks for: the [stat], the read of a regular
    file, or the write of a file that is read-only and needs cleaning. *)
Definition refused {Ext} (w : Script.World Ext) (p : list N) : Prop :=
  match Script.files w !! p with
  | Some Script.Unreachable | Some Script.NoAccess => True
  | Some (Script.ReadOnly raw) => ~ clean_already raw
  | _ => False
  end.

(** What [normalize_text_file] does to a regular file that can be read:
    nothing when the bytes do not decode or are clean already; otherwise
    the clean bytes are written, unless the file is read-only. *)
Definition on_content {Ext} (st : Script.State Ext) (p : list N)
    (writable : bool) (raw : list N) : Script.result bool * Script.State Ext :=
  let w := Script.world st in
  let lg := Script.ReadBytes p :: Script.Stat p :: Script.Stat p :: Script.log st in
  match clean_bytes raw with
  | None => (Script.Ret false, Script.mkState w lg)
  | Some out =>
      if bool_decide (out = raw) then (Script.Ret false, Script.mkState w lg)
      else if writable
           then (Script.Ret true,
                 Script.mkState
                   (Script.mkWorld (Script.cwd w)
                      (<[p := Script.File out]> (Script.files w)) (Script.ext w))
                   (Script.WriteText p out :: lg))
           else (Script.Raise Script.OSError, Script.mkState w lg)
  end.

(** The state a run starts from: nothing logged yet. *)
Definition start {Ext} (w : Script.World Ext) : Script.State Ext :=
  Script.mkState w [].

End Shape.

(** ** Concrete worlds for evaluating the script *)

Module Demo.

(** An external tool that replays scripted answers: the abstract part of
    the world is the list of answers still to give, one per command; once
    the list is used up every command succeeds silently. *)
Definition replay (cmd : list (list N)) (capture : bool)
    (w : Script.World (list Script.reply))
  : Script.reply * Script.World (list Script.reply) :=
  match Script.ext w with
  | [] => (Script.Ended (Script.Exited 0) (Some []), w)
  | answer :: rest =>
      (answer, Script.mkWorld (Script.cwd w) (Script.files w) rest)
  end.

(** A terminal that shows every character, and one that shows ASCII
    only. *)
Definition utf8 (c : N) : bool := true.
Definition ascii_only (c : N) : bool := false.

(** A checkout at [/repo] holding one entry [a.txt]. *)
Definition one_entry {Ext} (nd : Script.node) (e : Ext) : Script.World Ext :=
  Script.mkWorld (str "/repo") {[ str "/repo/a.txt" := nd ]} e.

Definition one_file {Ext} (raw : list N) (e : Ext) : Script.World Ext :=
  one_entry (Script.File raw) e.

(** A world with no file, started outside the checkout. *)
Definition bare {Ext} (e : Ext) : Script.World Ext :=
  Script.mkWorld (str "/home") ∅ e.

(** Answers of the tool: success with some output, an exit code with some
    output, death by a signal. *)
Definition ok (out : list N) : Script.reply :=
  Script.Ended (Script.Exited 0) (Some out).
Definition failed (code : Z) (out : list N) : Script.reply :=
  Script.Ended (Script.Exited code) (Some out).
Definition killed (signal : N) : Script.reply :=
  Script.Ended (Script.Killed signal) (Some []).

(** Runs on a checkout whose only allowlisted file needs cleaning, with a
    whitespace-only message.  The tool reports the root, a clean
    whitespace check and a successful [git add]; then it reports one
    staged name and answers [git status] as given, ... *)
Definition staged_one (dry : bool) (status : Script.reply) :=
  Script.main_on replay utf8 [str "a.txt"] (Script.mkArgs (str "   ") dry)
    (Shape.start (one_file (str "x " ++ [CR; LF])
              [ok (str "/repo" ++ [LF]); ok []; ok [];
               ok (str "a.txt" ++ [LF]); status])).

(** ... or a staged name that is forbidden, ... *)
Definition staged_forbidden (dry : bool) :=
  Script.main_on replay utf8 [str "a.txt"] (Script.mkArgs (str "   ") dry)
    (Shape.start (one_file (str "x " ++ [CR; LF])
              [ok (str "/repo" ++ [LF]); ok []; ok [];
               ok (str ".env.local" ++ [LF])])).

(** ... or no staged name at all. *)
Definition staged_nothing :=
  Script.main_on replay utf8 [str "a.txt"] (Script.mkArgs Script.DEFAULT_MESSAGE false)
    (Shape.start (one_file (str "x " ++ [CR; LF])
              [ok (str "/repo" ++ [LF]); ok []; ok []; ok []])).

(** A run stopped by the whitespace check. *)
Definition gate_fails :=
  Script.main_on replay utf8 [str "a.txt"] (Script.mkArgs Script.DEFAULT_MESSAGE false)
    (Shape.start (one_file (str "x " ++ [CR; LF])
              [ok (str "/repo" ++ [LF]);
               failed 2 (str "b.txt:1: trailing whitespace." ++ [LF])])).

(** A run that commits and pushes on branch [main]. *)
Definition full_run :=
  Script.main_on replay utf8 [str "a.txt"] (Script.mkArgs Script.DEFAULT_MESSAGE false)
    (Shape.start (one_file (str "x " ++ [CR; LF])
              [ok (str "/repo" ++ [LF]); ok []; ok [];
               ok (str "a.txt" ++ [LF]); ok []; ok (str "main" ++ [LF]); ok []])).

End Demo.

Import Script Shape.

(** ** Facts about the runtime functions *)

(** *** Evaluations of the runtime functions *)

Section RuntimeExamples.

Example splitlines_keeps_ends :
  splitlines true (str "ab" ++ [CR; LF] ++ str "c " ++ [LF] ++ str "d")
  = [str "ab" ++ [CR; LF]; str "c " ++ [LF]; str "d"].
Proof. reflexivity. Qed.

Example splitlines_boundaries :
  splitlines false (str "a" ++ [LF; CR; 11]) = [str "a"; []; []].
Proof. reflexivity. Qed.

Example splitlines_empty : splitlines false [] = [].
Proof. reflexivity. Qed.

Example decode_ellipsis : utf8_decode [226; 128; 166; 97] = Some [8230; 97].
Proof. reflexivity. Qed.

Example decode_overlong : utf8_decode [192; 128] = None.
Proof. reflexivity. Qed.

Example decode_surrogate : utf8_decode [237; 160; 128] = None.
Proof. reflexivity. Qed.

Example encode_mixed :
  utf8_encode [8230; 97; 128512] = Some [226; 128; 166; 97; 240; 159; 152; 128].
Proof. reflexivity. Qed.

Example rstrip_blanks : rstrip STRIPPED (str "a b " ++ [TAB; SPACE]) = str "a b".
Proof. reflexivity. Qed.

Example strip_whitespace_only : strip (str "   ") = [].
Proof. reflexivity. Qed.

Example replace_crlf_pairs :
  replace_crlf [CR; CR; LF; LF; CR] = [CR; LF; LF; CR].
Proof. reflexivity. Qed.

(** A lone carriage return ends a line for [splitlines] and is stripped
    with no line feed put back: the two lines are joined. *)
Example cleaned_text_lone_cr :
  cleaned_text (str "a " ++ [CR] ++ str "b" ++ [LF]) = str "ab" ++ [LF].
Proof. reflexivity. Qed.


Example forbidden_examples :
  is_forbidden_path (str ".env") = true
  /\ is_forbidden_path (str ".env.local") = true
  /\ is_forbidden_path (str "server/data/schools.json") = true
  /\ is_forbidden_path (str "server/database.js") = false.
Proof. repeat split; reflexivity. Qed.

End RuntimeExamples.

Section Strip.

Lemma rstrip_nil chars : rstrip chars [] = [].
Proof. reflexivity. Qed.

Lemma rstrip_snoc chars l x :
  rstrip chars (l ++ [x]) = if mem x chars then rstrip chars l else l ++ [x].
Proof.
  unfold rstrip. rewrite rev_unit. simpl.
  destruct (mem x chars); [reflexivity|].
  simpl. now rewrite rev_involutive.
Qed.

Lemma rstrip_last chars l x :
  last (rstrip chars l) = Some x -> mem x chars = false.
Proof.
  induction l as [|y l IH] using rev_ind; [discriminate|].
  rewrite rstrip_snoc. destruct (mem y chars) eqn:E; [exact IH|].
  rewrite last_snoc. now intros [= <-].
Qed.

Lemma rstrip_id chars l :
  (forall x, last l = Some x -> mem x chars = false) -> rstrip chars l = l.
Proof.
  destruct l as [|y l _] using rev_ind; [reflexivity|].
  intros H. rewrite rstrip_snoc, (H y); [reflexivity|apply last_snoc].
Qed.

Lemma rstrip_Forall (P : N -> Prop) chars l :
  Forall P l -> Forall P (rstrip chars l).
Proof.
  induction l as [|y l IH] using rev_ind; [intros; constructor|].
  intros H. rewrite rstrip_snoc. destruct (mem y chars); [|exact H].
  apply IH. now apply Forall_app in H.
Qed.

Lemma rstrip_idem chars l : rstrip chars (rstrip chars l) = rstrip chars l.
Proof. apply rstrip_id. intros x. apply rstrip_last. Qed.

End Strip.

(** *** [cleaned_text], one boundary at a time *)

Section Cleaning.

Lemma no_linebreak_snoc line c :
  no_linebreak line -> is_linebreak c = false -> no_linebreak (line ++ [c]).
Proof. intros H Hc. apply Forall_app; split; [exact H|now repeat constructor]. Qed.

Lemma no_linebreak_last line x :
  no_linebreak line -> last line = Some x -> is_linebreak x = false.
Proof.
  intros H Hl. apply last_Some in Hl as [l' ->].
  apply Forall_app in H as [_ H]. now inversion H.
Qed.

Lemma no_linebreak_not_lf line : no_linebreak line -> endswith_lf line = false.
Proof.
  intros H. unfold endswith_lf. destruct (last line) as [x|] eqn:E; [|reflexivity].
  apply (no_linebreak_last _ _ H) in E. unfold is_linebreak, LF in *. lia.
Qed.

Lemma cleaned_from_nil line :
  no_linebreak line -> cleaned_from line [] = rstrip STRIPPED line.
Proof.
  intros H. unfold cleaned_from. destruct line as [|c l]; [reflexivity|].
  cbn [splitlines_from map concat]. unfold clean_line.
  rewrite (no_linebreak_not_lf _ H). apply app_nil_r.
Qed.

Lemma cleaned_from_char line c rest :
  is_linebreak c = false ->
  cleaned_from line (c :: rest) = cleaned_from (line ++ [c]) rest.
Proof. intros H. unfold cleaned_from. cbn [splitlines_from]. now rewrite H. Qed.

Lemma clean_line_lf line :
  clean_line (line ++ [LF]) = rstrip STRIPPED line ++ [LF].
Proof.
  unfold clean_line, endswith_lf. rewrite last_snoc. cbn.
  now rewrite rstrip_snoc.
Qed.

Lemma clean_line_crlf line :
  clean_line (line ++ [CR; LF]) = rstrip STRIPPED line ++ [LF].
Proof.
  change (line ++ [CR; LF]) with (line ++ [CR] ++ [LF]).
  rewrite app_assoc, clean_line_lf. now rewrite rstrip_snoc.
Qed.

Lemma clean_line_cr line :
  clean_line (line ++ [CR]) = rstrip STRIPPED line.
Proof.
  unfold clean_line, endswith_lf. rewrite last_snoc. cbn.
  now rewrite rstrip_snoc.
Qed.

Lemma clean_line_other line c :
  mem c STRIPPED = false -> clean_line (line ++ [c]) = line ++ [c].
Proof.
  intros H. unfold clean_line, endswith_lf. rewrite last_snoc.
  assert ((c =? LF) = false) as -> by (unfold mem, STRIPPED in H; cbn in H; lia).
  rewrite rstrip_snoc. fold STRIPPED. now rewrite H.
Qed.

Lemma cleaned_from_lf line rest :
  cleaned_from line (LF :: rest)
  = rstrip STRIPPED line ++ LF :: cleaned_from [] rest.
Proof.
  unfold cleaned_from. cbn [splitlines_from].
  change (is_linebreak LF) with true. cbv iota.
  change (LF =? CR) with false. cbn [andb].
  destruct rest as [|d rest'].
  - cbn [map concat splitlines_from]. rewrite clean_line_lf.
    now rewrite <- app_assoc.
  - cbn [map concat]. rewrite clean_line_lf. now rewrite <- app_assoc.
Qed.

Lemma cleaned_from_crlf line rest :
  cleaned_from line (CR :: LF :: rest)
  = rstrip STRIPPED line ++ LF :: cleaned_from [] rest.
Proof.
  unfold cleaned_from. cbn [splitlines_from].
  change (is_linebreak CR) with true. cbv iota.
  change ((CR =? CR) && (LF =? LF)) with true. cbv iota.
  cbn [map concat]. rewrite clean_line_crlf. now rewrite <- app_assoc.
Qed.

Lemma cleaned_from_cr line rest :
  head rest <> Some LF ->
  cleaned_from line (CR :: rest) = rstrip STRIPPED line ++ cleaned_from [] rest.
Proof.
  intros H. unfold cleaned_from. cbn [splitlines_from].
  change (is_linebreak CR) with true. cbv iota.
  destruct rest as [|d rest'].
  - cbn [map concat splitlines_from]. now rewrite clean_line_cr.
  - assert ((d =? LF) = false) as -> by (cbn in H; assert (d <> LF) by congruence; lia).
    rewrite andb_false_r. cbn [map concat]. now rewrite clean_line_cr.
Qed.

Lemma cleaned_from_other line c rest :
  is_linebreak c = true -> c <> CR -> c <> LF ->
  cleaned_from line (c :: rest) = line ++ c :: cleaned_from [] rest.
Proof.
  intros Hb Hcr Hlf. unfold cleaned_from. cbn [splitlines_from]. rewrite Hb.
  assert ((c =? CR) = false) as -> by lia. cbn [andb].
  assert (mem c STRIPPED = false) as Hm
    by (unfold mem, STRIPPED, is_linebreak, SPACE, TAB, CR, LF in *; cbn; lia).
  destruct rest as [|d rest'].
  - cbn [map concat splitlines_from]. rewrite (clean_line_other _ _ Hm).
    now rewrite <- app_assoc.
  - cbn [map concat]. rewrite (clean_line_other _ _ Hm). now rewrite <- app_assoc.
Qed.

(** Induction over a text that takes a carriage return and the line feed
    after it in one step, as [splitlines] does. *)
Lemma text_ind (P : list N -> Prop) :
  P [] ->
  (forall rest, P rest -> P (CR :: LF :: rest)) ->
  (forall c rest, ~ (c = CR /\ head rest = Some LF) -> P rest -> P (c :: rest)) ->
  forall s, P s.
Proof.
  intros Hnil Hcrlf Hstep s.
  assert (P s /\ forall c, P (c :: s)) as [H _]; [|exact H].
  induction s as [|d s [IH1 IH2]].
  - split; [exact Hnil|]. intros c. apply Hstep; [|exact Hnil]. now intros [_ [=]].
  - split; [apply IH2|]. intros c.
    destruct (N.eq_dec c CR) as [->|Hc], (N.eq_dec d LF) as [->|Hd].
    + now apply Hcrlf.
    + apply Hstep; [|apply IH2]. intros [_ [= E]]. contradiction.
    + apply Hstep; [|apply IH2]. now intros [E _].
    + apply Hstep; [|apply IH2]. now intros [E _].
Qed.

(** The cases of one step of [cleaned_from], for use with [text_ind]. *)
Lemma cleaned_from_step line c rest :
  ~ (c = CR /\ head rest = Some LF) ->
  (is_linebreak c = false
   /\ cleaned_from line (c :: rest) = cleaned_from (line ++ [c]) rest)
  \/ (c = LF
      /\ cleaned_from line (c :: rest)
         = rstrip STRIPPED line ++ LF :: cleaned_from [] rest)
  \/ (c = CR
      /\ cleaned_from line (c :: rest)
         = rstrip STRIPPED line ++ cleaned_from [] rest)
  \/ (is_linebreak c = true /\ c <> CR /\ c <> LF
      /\ cleaned_from line (c :: rest) = line ++ c :: cleaned_from [] rest).
Proof.
  intros H.
  destruct (is_linebreak c) eqn:Hb.
  - destruct (N.eq_dec c LF) as [->|Hlf].
    { right; left. split; [reflexivity|apply cleaned_from_lf]. }
    destruct (N.eq_dec c CR) as [->|Hcr].
    { right; right; left. split; [reflexivity|]. apply cleaned_from_cr.
      intros E. apply H. now split. }
    right; right; right. repeat split; try assumption.
    now apply cleaned_from_other.
  - left. split; [reflexivity|]. now apply cleaned_from_char.
Qed.

End Cleaning.

(** *** Tidy texts are the fixed points of [cleaned_text] *)

Section Tidy.

Lemma tidy_then_app eof a b :
  tidy_then eof (a ++ b) = tidy_then (at_eol eof b) a && tidy_then eof b.
Proof.
  induction a as [|c a IH]; [reflexivity|].
  cbn [app tidy_then]. rewrite IH.
  assert (at_eol eof (a ++ b) = at_eol (at_eol eof b) a) as ->
    by (destruct a; reflexivity).
  now rewrite !andb_assoc.
Qed.

Lemma tidy_then_last eof l x :
  tidy_then eof l = true -> last l = Some x ->
  x <> CR /\ (eof = true -> is_blank x = false).
Proof.
  intros H Hl. apply last_Some in Hl as [l' ->].
  rewrite tidy_then_app in H. cbn in H. split; [lia|].
  intros ->. destruct (is_blank x); [|reflexivity]. cbn in H. lia.
Qed.

Lemma tidy_then_line eof l :
  no_linebreak l ->
  (eof = true -> forall x, last l = Some x -> is_blank x = false) ->
  tidy_then eof l = true.
Proof.
  induction l as [|c l IH]; [reflexivity|].
  intros Hl Hlast. apply Forall_cons in Hl as [Hc Hl].
  cbn [tidy_then]. rewrite IH; [|exact Hl|].
  - destruct l as [|d l].
    + cbn. destruct eof.
      * rewrite (Hlast eq_refl c eq_refl). unfold is_linebreak, CR in *. lia.
      * unfold is_linebreak, CR in *. lia.
    + apply Forall_cons in Hl as [Hd _]. cbn.
      unfold is_linebreak, CR, LF in *. lia.
  - intros He x Hx. apply (Hlast He). destruct l; [discriminate|exact Hx].
Qed.

Lemma rstrip_line l :
  no_linebreak l -> (forall x, last l = Some x -> is_blank x = false) ->
  rstrip STRIPPED l = l.
Proof.
  intros Hl Hlast. apply rstrip_id. intros x Hx.
  pose proof (no_linebreak_last _ _ Hl Hx). pose proof (Hlast _ Hx).
  unfold mem, STRIPPED, is_blank, is_linebreak, SPACE, TAB, CR, LF in *. cbn. lia.
Qed.

Lemma rstrip_line_tidy eof l :
  no_linebreak l -> tidy_then eof (rstrip STRIPPED l) = true.
Proof.
  intros Hl. apply tidy_then_line; [now apply rstrip_Forall|].
  intros _ x Hx. apply rstrip_last in Hx.
  unfold mem, STRIPPED, is_blank, SPACE, TAB in *. cbn in Hx. lia.
Qed.

(** A tidy text is left as it is. *)
Lemma cleaned_from_tidy s :
  forall line, no_linebreak line -> tidy (line ++ s) = true ->
  cleaned_from line s = line ++ s.
Proof.
  unfold tidy. induction s as [|rest IH|c rest Hc IH] using text_ind;
    intros line Hl Ht.
  - rewrite app_nil_r in *. rewrite cleaned_from_nil by exact Hl.
    apply rstrip_line; [exact Hl|]. intros x Hx.
    now apply (tidy_then_last _ _ _ Ht Hx).
  - rewrite tidy_then_app in Ht. cbn in Ht. lia.
  - rewrite tidy_then_app in Ht. apply andb_true_iff in Ht as [Ht1 Ht2].
    cbn [tidy_then at_eol] in Ht1, Ht2.
    destruct (cleaned_from_step line c rest Hc)
      as [[Hb ->]|[[-> ->]|[[-> _]|(Hb & Hcr & Hlf & ->)]]].
    + rewrite IH; [now rewrite <- app_assoc|now apply no_linebreak_snoc|].
      rewrite <- app_assoc, tidy_then_app. cbn [app tidy_then at_eol].
      now rewrite Ht1, Ht2.
    + apply andb_true_iff in Ht2 as [_ Ht2].
      rewrite (IH []); [|constructor|exact Ht2]. cbn [app].
      rewrite rstrip_line; [reflexivity|exact Hl|].
      intros x Hx. now apply (tidy_then_last _ _ _ Ht1 Hx).
    + cbn in Ht2. lia.
    + apply andb_true_iff in Ht2 as [_ Ht2].
      rewrite (IH []); [reflexivity|constructor|exact Ht2].
Qed.

(** What [cleaned_text] produces is tidy. *)
Lemma cleaned_from_is_tidy s :
  forall line, no_linebreak line -> tidy (cleaned_from line s) = true.
Proof.
  unfold tidy. induction s as [|rest IH|c rest Hc IH] using text_ind;
    intros line Hl.
  - rewrite cleaned_from_nil by exact Hl. now apply rstrip_line_tidy.
  - rewrite cleaned_from_crlf, tidy_then_app, rstrip_line_tidy by exact Hl.
    cbn. apply IH. constructor.
  - destruct (cleaned_from_step line c rest Hc)
      as [[Hb ->]|[[-> ->]|[[-> ->]|(Hb & Hcr & Hlf & ->)]]].
    + apply IH. now apply no_linebreak_snoc.
    + rewrite tidy_then_app, rstrip_line_tidy by exact Hl.
      cbn. apply IH. constructor.
    + rewrite tidy_then_app, rstrip_line_tidy by exact Hl.
      cbn. apply IH. constructor.
    + rewrite tidy_then_app. cbn [tidy_then at_eol].
      rewrite (IH []) by constructor.
      rewrite tidy_then_line; [|exact Hl|lia].
      unfold is_blank, is_linebreak, SPACE, TAB, CR, LF in *. lia.
Qed.

Lemma cleaned_text_tidy text : tidy text = true -> cleaned_text text = text.
Proof. intros H. apply (cleaned_from_tidy text []); [constructor|exact H]. Qed.

Lemma cleaned_text_is_tidy text : tidy (cleaned_text text) = true.
Proof. apply (cleaned_from_is_tidy text []). constructor. Qed.

Lemma cleaned_text_idempotent text :
  cleaned_text (cleaned_text text) = cleaned_text text.
Proof. apply cleaned_text_tidy, cleaned_text_is_tidy. Qed.

End Tidy.

(** *** The last character, and the characters that occur *)

Section LastChar.




Lemma concat_Forall {A} (P : A -> Prop) (ls : list (list A)) :
  Forall (Forall P) ls -> Forall P (concat ls).
Proof.
  induction 1 as [|l ls Hl _ IH]; [constructor|]. cbn. now apply Forall_app.
Qed.

Lemma splitlines_from_Forall (P : N -> Prop) s :
  forall line, Forall P line -> Forall P s ->
  Forall (Forall P) (splitlines_from true line s).
Proof.
  induction s as [|rest IH|c rest Hc IH] using text_ind; intros line Hl Hs.
  - destruct line; cbn; [constructor|constructor; [exact Hl|constructor]].
  - cbn [splitlines_from]. change (is_linebreak CR) with true. cbv iota.
    change ((CR =? CR) && (LF =? LF)) with true. cbv iota.
    apply Forall_cons in Hs as [H1 Hs]. apply Forall_cons in Hs as [H2 Hs].
    constructor; [|apply IH; [constructor|exact Hs]].
    apply Forall_app; split; [exact Hl|now repeat constructor].
  - apply Forall_cons in Hs as [H1 Hs]. cbn [splitlines_from].
    destruct (is_linebreak c).
    + assert (Forall P (line ++ [c])) as Hlc
        by (apply Forall_app; split; [exact Hl|now repeat constructor]).
      destruct rest as [|d rest']; [now repeat constructor|].
      destruct ((c =? CR) && (d =? LF)) eqn:E.
      * exfalso. apply Hc. cbn. split; [lia|]. f_equal. lia.
      * constructor; [exact Hlc|]. apply IH; [constructor|exact Hs].
    + apply IH; [|exact Hs].
      apply Forall_app; split; [exact Hl|now repeat constructor].
Qed.

Lemma clean_line_Forall (P : N -> Prop) ln :
  P LF -> Forall P ln -> Forall P (clean_line ln).
Proof.
  intros HLF H. unfold clean_line. destruct (endswith_lf ln).
  - apply Forall_app; split; [now apply rstrip_Forall|now repeat constructor].
  - now apply rstrip_Forall.
Qed.

(** Cleaning introduces no character: all it adds back are line feeds. *)
Lemma cleaned_text_Forall (P : N -> Prop) text :
  P LF -> Forall P text -> Forall P (cleaned_text text).
Proof.
  intros HLF H. unfold cleaned_text. apply concat_Forall.
  apply Forall_map.
  eapply Forall_impl; [apply (splitlines_from_Forall P text []); [constructor|exact H]|].
  intros ln. now apply clean_line_Forall.
Qed.

End LastChar.

(** *** The UTF-8 codec round trips *)

Section Utf8.

Lemma fmap_cons_Some (c : N) (o : option (list N)) s :
  cons c <$> o = Some s -> exists s', o = Some s' /\ s = c :: s'.
Proof. destruct o as [s'|]; [|discriminate]. intros [= <-]. now exists s'. Qed.

Lemma encode_char_2 b0 b1 :
  194 <= b0 < 224 -> is_cont b1 = true ->
  utf8_encode_char ((b0 - 192) * 64 + (b1 - 128)) = Some [b0; b1].
Proof.
  unfold is_cont, utf8_encode_char. intros H0 H1.
  set (c := (b0 - 192) * 64 + (b1 - 128)).
  assert (128 <= c < 2048) as Hc by (subst c; lia).
  assert ((c <? 128) = false) as -> by lia.
  assert ((c <? 2048) = true) as -> by lia.
  f_equal. f_equal; [|f_equal]; subst c; lia.
Qed.

Lemma encode_char_3 b0 b1 b2 :
  224 <= b0 < 240 -> is_cont b1 = true -> is_cont b2 = true ->
  ((b0 =? 224) && (b1 <? 160)) = false ->
  ((b0 =? 237) && (160 <=? b1)) = false ->
  utf8_encode_char (((b0 - 224) * 64 + (b1 - 128)) * 64 + (b2 - 128))
  = Some [b0; b1; b2].
Proof.
  unfold is_cont, utf8_encode_char, is_surrogate. intros H0 H1 H2 H3 H4.
  set (c := ((b0 - 224) * 64 + (b1 - 128)) * 64 + (b2 - 128)).
  assert (2048 <= c < 65536 /\ ~ (55296 <= c <= 57343)) as Hc by (subst c; lia).
  assert ((c <? 128) = false) as -> by lia.
  assert ((c <? 2048) = false) as -> by lia.
  assert ((c <? 65536) = true) as -> by lia.
  assert (((55296 <=? c) && (c <=? 57343)) = false) as -> by lia.
  f_equal. f_equal; [|f_equal; [|f_equal]]; subst c; lia.
Qed.

Lemma encode_char_4 b0 b1 b2 b3 :
  240 <= b0 < 245 -> is_cont b1 = true -> is_cont b2 = true -> is_cont b3 = true ->
  ((b0 =? 240) && (b1 <? 144)) = false ->
  ((b0 =? 244) && (144 <=? b1)) = false ->
  utf8_encode_char
    ((((b0 - 240) * 64 + (b1 - 128)) * 64 + (b2 - 128)) * 64 + (b3 - 128))
  = Some [b0; b1; b2; b3].
Proof.
  unfold is_cont, utf8_encode_char. intros H0 H1 H2 H3 H4 H5.
  set (c := (((b0 - 240) * 64 + (b1 - 128)) * 64 + (b2 - 128)) * 64 + (b3 - 128)).
  assert (65536 <= c < 1114112) as Hc by (subst c; lia).
  assert ((c <? 128) = false) as -> by lia.
  assert ((c <? 2048) = false) as -> by lia.
  assert ((c <? 65536) = false) as -> by lia.
  assert ((c <? 1114112) = true) as -> by lia.
  f_equal. f_equal; [|f_equal; [|f_equal; [|f_equal]]]; subst c; lia.
Qed.

(** What decodes encodes back to the same bytes: the decoder accepts
    shortest forms only. *)
Lemma utf8_decode_encode_len n :
  forall b s, (length b <= n)%nat ->
  utf8_decode b = Some s -> utf8_encode s = Some b.
Proof.
  induction n as [|n IH]; intros b s Hn H.
  { destruct b; [|cbn in Hn; lia]. now injection H as <-. }
  destruct b as [|b0 r0]; [now injection H as <-|].
  cbn [utf8_decode] in H. cbn [length] in Hn.
  destruct (b0 <? 128) eqn:E1.
  { apply fmap_cons_Some in H as (s' & Hs' & ->).
    apply IH in Hs'; [|lia]. cbn [utf8_encode]. unfold utf8_encode_char.
    now rewrite E1, Hs'. }
  destruct (b0 <? 194) eqn:E2; [discriminate|].
  destruct (b0 <? 224) eqn:E3.
  { destruct r0 as [|b1 r1]; [discriminate|].
    destruct (is_cont b1) eqn:C1; [|discriminate].
    apply fmap_cons_Some in H as (s' & Hs' & ->).
    apply IH in Hs'; [|cbn [length] in Hn; lia]. cbn [utf8_encode].
    rewrite encode_char_2, Hs'; [reflexivity|lia|exact C1]. }
  destruct (b0 <? 240) eqn:E4.
  { destruct r0 as [|b1 [|b2 r2]]; try discriminate.
    destruct (is_cont b1) eqn:C1; [|discriminate].
    destruct (is_cont b2) eqn:C2; [|discriminate].
    destruct ((b0 =? 224) && (b1 <? 160)) eqn:G1; [discriminate|].
    destruct ((b0 =? 237) && (160 <=? b1)) eqn:G2; [discriminate|].
    cbn [andb negb] in H.
    apply fmap_cons_Some in H as (s' & Hs' & ->).
    apply IH in Hs'; [|cbn [length] in Hn; lia]. cbn [utf8_encode].
    rewrite encode_char_3, Hs'; try assumption; [reflexivity|lia]. }
  destruct (b0 <? 245) eqn:E5; [|discriminate].
  destruct r0 as [|b1 [|b2 [|b3 r3]]]; try discriminate.
  destruct (is_cont b1) eqn:C1; [|discriminate].
  destruct (is_cont b2) eqn:C2; [|discriminate].
  destruct (is_cont b3) eqn:C3; [|discriminate].
  destruct ((b0 =? 240) && (b1 <? 144)) eqn:G1; [discriminate|].
  destruct ((b0 =? 244) && (144 <=? b1)) eqn:G2; [discriminate|].
  cbn [andb negb] in H.
  apply fmap_cons_Some in H as (s' & Hs' & ->).
  apply IH in Hs'; [|cbn [length] in Hn; lia]. cbn [utf8_encode].
  rewrite encode_char_4, Hs'; try assumption; [reflexivity|lia].
Qed.

Lemma utf8_decode_encode b s : utf8_decode b = Some s -> utf8_encode s = Some b.
Proof. apply (utf8_decode_encode_len (length b)). lia. Qed.

(** What encodes decodes back to the same text. *)
Lemma utf8_encode_decode s : forall b, utf8_encode s = Some b -> utf8_decode b = Some s.
Proof.
  induction s as [|c s IH]; intros b H; [now injection H as <-|].
  cbn [utf8_encode] in H.
  destruct (utf8_encode_char c) as [e|] eqn:Ec; [|discriminate].
  destruct (utf8_encode s) as [r|] eqn:Er; [|discriminate].
  injection H as <-. specialize (IH r eq_refl).
  unfold utf8_encode_char, is_surrogate in Ec.
  destruct (c <? 128) eqn:E1.
  { injection Ec as <-. cbn [app utf8_decode]. now rewrite E1, IH. }
  destruct (c <? 2048) eqn:E2.
  { injection Ec as <-. cbn [app utf8_decode]. unfold is_cont.
    assert ((192 + c / 64 <? 128) = false) as -> by lia.
    assert ((192 + c / 64 <? 194) = false) as -> by lia.
    assert ((192 + c / 64 <? 224) = true) as -> by lia.
    assert (((128 <=? 128 + c mod 64) && (128 + c mod 64 <=? 191)) = true) as -> by lia.
    rewrite IH. cbn. do 2 f_equal. lia. }
  destruct (c <? 65536) eqn:E3.
  { destruct ((55296 <=? c) && (c <=? 57343)) eqn:Es; [discriminate|].
    injection Ec as <-. cbn [app utf8_decode]. unfold is_cont.
    set (b0 := 224 + c / 4096). set (b1 := 128 + (c / 64) mod 64).
    set (b2 := 128 + c mod 64).
    assert ((b0 <? 128) = false) as -> by (subst b0; lia).
    assert ((b0 <? 194) = false) as -> by (subst b0; lia).
    assert ((b0 <? 224) = false) as -> by (subst b0; lia).
    assert ((b0 <? 240) = true) as -> by (subst b0; lia).
    assert (((128 <=? b1) && (b1 <=? 191)) = true) as -> by (subst b1; lia).
    assert (((128 <=? b2) && (b2 <=? 191)) = true) as -> by (subst b2; lia).
    assert (((b0 =? 224) && (b1 <? 160)) = false) as -> by (subst b0 b1; lia).
    assert (((b0 =? 237) && (160 <=? b1)) = false) as -> by (subst b0 b1; lia).
    rewrite IH. cbn. do 2 f_equal. subst b0 b1 b2. lia. }
  destruct (c <? 1114112) eqn:E4; [|discriminate].
  injection Ec as <-. cbn [app utf8_decode]. unfold is_cont.
  set (b0 := 240 + c / 262144). set (b1 := 128 + (c / 4096) mod 64).
  set (b2 := 128 + (c / 64) mod 64). set (b3 := 128 + c mod 64).
  assert ((b0 <? 128) = false) as -> by (subst b0; lia).
  assert ((b0 <? 194) = false) as -> by (subst b0; lia).
  assert ((b0 <? 224) = false) as -> by (subst b0; lia).
  assert ((b0 <? 240) = false) as -> by (subst b0; lia).
  assert ((b0 <? 245) = true) as -> by (subst b0; lia).
  assert (((128 <=? b1) && (b1 <=? 191)) = true) as -> by (subst b1; lia).
  assert (((128 <=? b2) && (b2 <=? 191)) = true) as -> by (subst b2; lia).
  assert (((128 <=? b3) && (b3 <=? 191)) = true) as -> by (subst b3; lia).
  assert (((b0 =? 240) && (b1 <? 144)) = false) as -> by (subst b0 b1; lia).
  assert (((b0 =? 244) && (144 <=? b1)) = false) as -> by (subst b0 b1; lia).
  rewrite IH. cbn. do 2 f_equal. subst b0 b1 b2 b3. lia.
Qed.

End Utf8.

(** *** Bytes and characters side by side *)

Section BytesAndText.


Lemma utf8_encode_Forall s :
  Forall (fun c => is_Some (utf8_encode_char c)) s <-> is_Some (utf8_encode s).
Proof.
  induction s as [|c s IH]; cbn [utf8_encode].
  - split; [now eexists|constructor].
  - rewrite Forall_cons, IH.
    destruct (utf8_encode_char c), (utf8_encode s); split;
      try (intros [[? [=]] [? [=]]]); try (intros [? [=]]);
      intros; repeat split; eexists; reflexivity.
Qed.

(** The shape of the bytes of one character. *)
Lemma encode_char_shape c e :
  utf8_encode_char c = Some e ->
  (c < 128 /\ e = [c])
  \/ (128 <= c /\ e <> [] /\ Forall (fun b => 128 <= b) e).
Proof.
  unfold utf8_encode_char, is_surrogate. intros H.
  destruct (c <? 128) eqn:E1; [left; injection H as <-; split; [lia|reflexivity]|].
  right. split; [lia|].
  destruct (c <? 2048); [injection H as <-; split; [discriminate|repeat constructor; lia]|].
  destruct (c <? 65536).
  { destruct ((55296 <=? c) && (c <=? 57343)); [discriminate|].
    injection H as <-; split; [discriminate|repeat constructor; lia]. }
  destruct (c <? 1114112); [|discriminate].
  injection H as <-; split; [discriminate|repeat constructor; lia].
Qed.

Lemma tidy_then_high eof e :
  Forall (fun b => 128 <= b) e -> tidy_then eof e = true.
Proof.
  induction 1 as [|b e Hb _ IH]; [reflexivity|].
  cbn [tidy_then]. rewrite IH. unfold is_blank, SPACE, TAB, CR. lia.
Qed.

Lemma at_eol_encode eof s b :
  utf8_encode s = Some b -> at_eol eof b = at_eol eof s.
Proof.
  destruct s as [|c s]; [now intros [= <-]|].
  cbn [utf8_encode]. destruct (utf8_encode_char c) as [e|] eqn:Ec; [|discriminate].
  destruct (utf8_encode s) as [r|]; [|discriminate]. intros [= <-].
  apply encode_char_shape in Ec as [[_ ->]|(Hc & Hne & Hhigh)]; [reflexivity|].
  destruct e as [|b0 e]; [contradiction|]. apply Forall_cons in Hhigh as [H0 _].
  cbn. unfold LF. lia.
Qed.

(** A text is tidy exactly when its bytes are. *)
Lemma tidy_then_encode s :
  forall eof b, utf8_encode s = Some b -> tidy_then eof b = tidy_then eof s.
Proof.
  induction s as [|c s IH]; intros eof b H; [now injection H as <-|].
  cbn [utf8_encode] in H.
  destruct (utf8_encode_char c) as [e|] eqn:Ec; [|discriminate].
  destruct (utf8_encode s) as [r|] eqn:Er; [|discriminate]. injection H as <-.
  rewrite tidy_then_app, (IH eof r eq_refl), (at_eol_encode eof s r Er).
  cbn [tidy_then].
  apply encode_char_shape in Ec as [[_ ->]|(Hc & _ & Hhigh)].
  - cbn [tidy_then at_eol]. now rewrite andb_true_r.
  - rewrite tidy_then_high by exact Hhigh.
    unfold is_blank, SPACE, TAB, CR. cbn [andb].
    assert ((c =? 13) = false) as -> by lia.
    assert ((c =? 32) = false) as -> by lia.
    assert ((c =? 9) = false) as -> by lia. reflexivity.
Qed.




Lemma tidy_then_no_cr eof s : tidy_then eof s = true -> Forall (fun c => c <> CR) s.
Proof.
  induction s as [|c s IH]; [constructor|]. cbn [tidy_then]. intros H.
  apply andb_true_iff in H as [H H2]. apply andb_true_iff in H as [H1 _].
  constructor; [lia|now apply IH].
Qed.

Lemma replace_crlf_id b : Forall (fun c => c <> CR) b -> replace_crlf b = b.
Proof.
  induction 1 as [|x rest Hx _ IH]; [reflexivity|].
  cbn [replace_crlf]. rewrite IH. destruct rest as [|y rest']; [reflexivity|].
  now assert ((x =? CR) = false) as -> by lia.
Qed.



Lemma translate_newlines_id s : translate_newlines s = s.
Proof.
  unfold translate_newlines. induction s as [|c s IH]; [reflexivity|].
  cbn [flat_map]. rewrite IH. destruct (N.eqb_spec c LF) as [->|_]; reflexivity.
Qed.

End BytesAndText.

(** *** The clean transform on bytes *)

Section CleanBytes.

Lemma decoded_encodable raw text :
  utf8_decode raw = Some text ->
  Forall (fun c => is_Some (utf8_encode_char c)) text.
Proof. intros H. apply utf8_encode_Forall. apply utf8_decode_encode in H. eauto. Qed.

(** The cleaned text of decoded bytes always encodes. *)
Lemma cleaned_text_encodes raw text :
  utf8_decode raw = Some text -> exists out, utf8_encode (cleaned_text text) = Some out.
Proof.
  intros H. apply utf8_encode_Forall, cleaned_text_Forall.
  - now eexists.
  - eapply decoded_encodable, H.
Qed.

Lemma clean_bytes_Some raw text :
  utf8_decode (replace_crlf raw) = Some text ->
  exists out, clean_bytes raw = Some out /\ utf8_encode (cleaned_text text) = Some out.
Proof.
  intros H. destruct (cleaned_text_encodes _ _ H) as [out Hout].
  exists out. unfold clean_bytes. now rewrite H.
Qed.

Lemma clean_bytes_tidy raw out : clean_bytes raw = Some out -> tidy out = true.
Proof.
  unfold clean_bytes, tidy. destruct (utf8_decode (replace_crlf raw)) as [text|];
    [|discriminate].
  intros H. rewrite (tidy_then_encode _ _ _ H). apply cleaned_text_is_tidy.
Qed.

Lemma clean_bytes_fixed raw :
  tidy raw = true -> is_Some (utf8_decode raw) -> clean_bytes raw = Some raw.
Proof.
  intros Ht [text Hd]. unfold clean_bytes.
  rewrite replace_crlf_id by (eapply tidy_then_no_cr, Ht). rewrite Hd.
  pose proof (utf8_decode_encode _ _ Hd) as He.
  rewrite cleaned_text_tidy; [exact He|].
  unfold tidy. now rewrite <- (tidy_then_encode _ _ _ He).
Qed.

Lemma clean_bytes_decodes raw out :
  clean_bytes raw = Some out -> is_Some (utf8_decode out).
Proof.
  unfold clean_bytes. destruct (utf8_decode (replace_crlf raw)); [|discriminate].
  intros H. apply utf8_encode_decode in H. eauto.
Qed.

Lemma clean_bytes_idempotent raw out :
  clean_bytes raw = Some out -> clean_bytes out = Some out.
Proof.
  intros H. apply clean_bytes_fixed;
    [eapply clean_bytes_tidy, H|eapply clean_bytes_decodes, H].
Qed.


End CleanBytes.

(** *** Normalization only deletes *)

Section Deletions.

Local Abbreviation keep := (filter (fun c => is_kept c = true)).

Lemma rstrip_sublist chars l : rstrip chars l `sublist_of` l.
Proof.
  induction l as [|y l IH] using rev_ind; [constructor|].
  rewrite rstrip_snoc. destruct (mem y chars); [|reflexivity].
  now apply sublist_inserts_r.
Qed.

Lemma rstrip_line_keep l :
  no_linebreak l -> keep (rstrip STRIPPED l) = keep l.
Proof.
  induction l as [|y l IH] using rev_ind; [reflexivity|].
  intros H. apply Forall_app in H as [Hl Hy]. apply Forall_cons in Hy as [Hy _].
  rewrite rstrip_snoc. destruct (mem y STRIPPED) eqn:E; [|reflexivity].
  rewrite IH by exact Hl. rewrite filter_app, filter_cons_False, filter_nil.
  - now rewrite app_nil_r.
  - unfold is_kept, mem, STRIPPED, is_linebreak, SPACE, TAB, CR, LF in *. cbn in E. lia.
Qed.

Lemma keep_no_cr rest : keep (CR :: rest) = keep rest.
Proof. now rewrite filter_cons_False by (cbn; discriminate). Qed.

Lemma keep_lf rest : keep (LF :: rest) = LF :: keep rest.
Proof. now rewrite filter_cons_True by reflexivity. Qed.

(** The cleaned text is the text with some characters deleted, and the
    deleted characters are spaces, tabs and carriage returns. *)
Lemma cleaned_from_deletes s :
  forall line, no_linebreak line ->
  cleaned_from line s `sublist_of` line ++ s
  /\ keep (cleaned_from line s) = keep (line ++ s).
Proof.
  induction s as [|rest IH|c rest Hc IH] using text_ind; intros line Hl.
  - rewrite cleaned_from_nil, app_nil_r by exact Hl.
    split; [apply rstrip_sublist|now apply rstrip_line_keep].
  - rewrite cleaned_from_crlf. destruct (IH [] (List.Forall_nil _)) as [I1 I2].
    split.
    + apply sublist_app; [apply rstrip_sublist|].
      apply sublist_cons. now apply sublist_skip.
    + rewrite !filter_app, keep_no_cr, !keep_lf, I2.
      now rewrite rstrip_line_keep by exact Hl.
  - destruct (cleaned_from_step line c rest Hc)
      as [[Hb ->]|[[-> ->]|[[-> ->]|(Hb & Hcr & Hlf & ->)]]].
    + destruct (IH (line ++ [c]) (no_linebreak_snoc _ _ Hl Hb)) as [I1 I2].
      now rewrite <- app_assoc in I1, I2.
    + destruct (IH [] (List.Forall_nil _)) as [I1 I2]. split.
      * apply sublist_app; [apply rstrip_sublist|now apply sublist_skip].
      * rewrite !filter_app, !keep_lf, I2. now rewrite rstrip_line_keep by exact Hl.
    + destruct (IH [] (List.Forall_nil _)) as [I1 I2]. split.
      * apply sublist_app; [apply rstrip_sublist|now apply sublist_cons].
      * rewrite !filter_app, keep_no_cr, I2. now rewrite rstrip_line_keep by exact Hl.
    + destruct (IH [] (List.Forall_nil _)) as [I1 I2]. split.
      * apply sublist_app; [reflexivity|now apply sublist_skip].
      * rewrite !filter_app, !filter_cons, I2. reflexivity.
Qed.

Lemma replace_crlf_deletes b :
  replace_crlf b `sublist_of` b /\ keep (replace_crlf b) = keep b.
Proof.
  induction b as [|rest [I1 I2]|c rest Hc [I1 I2]] using text_ind.
  - split; [constructor|reflexivity].
  - cbn [replace_crlf]. change ((CR =? CR) && (LF =? LF)) with true. cbv iota.
    split; [apply sublist_cons; now apply sublist_skip|].
    now rewrite keep_no_cr, !keep_lf, I2.
  - assert (replace_crlf (c :: rest) = c :: replace_crlf rest) as ->.
    { cbn [replace_crlf]. destruct rest as [|d rest']; [reflexivity|].
      destruct ((c =? CR) && (d =? LF)) eqn:E; [|reflexivity].
      exfalso. apply Hc. cbn. split; [lia|f_equal; lia]. }
    split; [now apply sublist_skip|]. rewrite !filter_cons, I2. reflexivity.
Qed.

Lemma encode_char_keep c e :
  utf8_encode_char c = Some e ->
  (is_kept c = true /\ keep e = e) \/ (is_kept c = false /\ keep e = []).
Proof.
  intros H. apply encode_char_shape in H as [[Hc ->]|(Hc & _ & Hhigh)].
  - destruct (is_kept c) eqn:E; [left|right]; (split; [reflexivity|]).
    + now rewrite filter_cons_True by exact E.
    + now rewrite filter_cons_False by (rewrite E; discriminate).
  - left. split; [unfold is_kept, SPACE, TAB, CR; lia|].
    induction Hhigh as [|b e Hb _ IH]; [reflexivity|].
    rewrite filter_cons_True, IH; [reflexivity|].
    unfold is_kept, SPACE, TAB, CR. lia.
Qed.

Lemma utf8_encode_keep s :
  forall b, utf8_encode s = Some b -> utf8_encode (keep s) = Some (keep b).
Proof.
  induction s as [|c s IH]; intros b H; [now injection H as <-|].
  cbn [utf8_encode] in H.
  destruct (utf8_encode_char c) as [e|] eqn:Ec; [|discriminate].
  destruct (utf8_encode s) as [r|] eqn:Er; [|discriminate]. injection H as <-.
  rewrite filter_app. specialize (IH r eq_refl).
  destruct (encode_char_keep _ _ Ec) as [[K ->]|[K ->]].
  - rewrite filter_cons_True by exact K. cbn [utf8_encode]. now rewrite Ec, IH.
  - rewrite filter_cons_False by (rewrite K; discriminate). exact IH.
Qed.

Lemma utf8_encode_sublist s s' :
  s `sublist_of` s' ->
  forall b b', utf8_encode s = Some b -> utf8_encode s' = Some b' ->
  b `sublist_of` b'.
Proof.
  induction 1 as [|c s s' _ IH|c s s' _ IH]; intros b b' Hb Hb'.
  - injection Hb as <-. apply sublist_nil_l.
  - cbn [utf8_encode] in Hb, Hb'.
    destruct (utf8_encode_char c) as [e|]; [|discriminate].
    destruct (utf8_encode s) as [r|]; [|discriminate].
    destruct (utf8_encode s') as [r'|]; [|discriminate].
    injection Hb as <-. injection Hb' as <-.
    apply sublist_app; [reflexivity|]. now apply IH.
  - cbn [utf8_encode] in Hb'.
    destruct (utf8_encode_char c) as [e|]; [|discriminate].
    destruct (utf8_encode s') as [r'|]; [|discriminate]. injection Hb' as <-.
    apply sublist_inserts_l. now apply IH.
Qed.

(** The clean transform deletes bytes of the file, and only spaces, tabs
    and carriage returns. *)
Lemma clean_bytes_deletes raw out :
  clean_bytes raw = Some out ->
  out `sublist_of` raw /\ keep out = keep raw.
Proof.
  unfold clean_bytes.
  destruct (utf8_decode (replace_crlf raw)) as [text|] eqn:Hd; [|discriminate].
  intros Hout. apply utf8_decode_encode in Hd.
  destruct (cleaned_from_deletes text [] (List.Forall_nil _)) as [I1 I2].
  destruct (replace_crlf_deletes raw) as [R1 R2]. cbn [app] in I1, I2.
  split.
  - etransitivity; [|exact R1]. exact (utf8_encode_sublist _ _ I1 _ _ Hout Hd).
  - rewrite <- R2.
    apply utf8_encode_keep in Hout, Hd.
    change (cleaned_text text) with (cleaned_from [] text) in Hout.
    rewrite I2 in Hout. congruence.
Qed.




End Deletions.

(** *** The string form of a [Path] is a normal form *)

Section PurePaths.

Lemma split_slash_app x : forall part s,
  slash_free x ->
  split_slash_from part (x ++ s) = split_slash_from (part ++ x) s.
Proof.
  induction x as [|c x IH]; intros part s Hx; [now rewrite app_nil_r|].
  apply Forall_cons in Hx as [Hc Hx]. cbn [app split_slash_from].
  assert ((c =? SLASH) = false) as -> by lia.
  rewrite IH by exact Hx. now rewrite <- app_assoc.
Qed.

Lemma split_slash_pieces s : forall part,
  slash_free part -> Forall slash_free (split_slash_from part s).
Proof.
  induction s as [|c s IH]; intros part Hp; [now repeat constructor|].
  cbn [split_slash_from]. destruct (c =? SLASH) eqn:E.
  - constructor; [exact Hp|]. apply IH. constructor.
  - apply IH. apply Forall_app; split; [exact Hp|]. repeat constructor. lia.
Qed.

(** Splitting what [join] made of slash-free pieces gives the pieces
    back. *)
Lemma split_slash_join parts :
  Forall slash_free parts -> parts <> [] ->
  split_slash_from [] (join [SLASH] parts) = parts.
Proof.
  induction 1 as [|p ps Hp Hps IH]; [congruence|]. intros _.
  destruct ps as [|q ps].
  - cbn [join]. rewrite <- (app_nil_r p) at 1.
    now rewrite split_slash_app by exact Hp.
  - change (join [SLASH] (p :: q :: ps)) with (p ++ SLASH :: join [SLASH] (q :: ps)).
    rewrite split_slash_app by exact Hp. cbn [app split_slash_from].
    change (SLASH =? SLASH) with true. cbv iota.
    now rewrite IH by discriminate.
Qed.

Lemma component_head x :
  is_component x = true -> slash_free x ->
  exists c rest, x = c :: rest /\ c <> SLASH.
Proof.
  destruct x as [|c rest]; [discriminate|]. intros _ Hx.
  apply Forall_cons in Hx as [Hc _]. now exists c, rest.
Qed.

(** What [join] makes of components does not start with a slash. *)
Lemma join_components_head parts :
  Forall (fun x => is_component x = true) parts -> Forall slash_free parts ->
  lstrip [SLASH] (join [SLASH] parts) = join [SLASH] parts.
Proof.
  intros Hc Hf. destruct parts as [|p ps]; [reflexivity|].
  apply Forall_cons in Hc as [Hp _]. apply Forall_cons in Hf as [Hfp _].
  destruct (component_head p Hp Hfp) as (c & rest & -> & Hne).
  assert (forall tail, lstrip [SLASH] (c :: tail) = c :: tail) as Hl.
  { intros tail. unfold lstrip, mem. cbn [dropwhile existsb].
    assert ((c =? SLASH) = false) as -> by lia. reflexivity. }
  destruct ps; cbn [join app]; apply Hl.
Qed.

Lemma path_root_cases s :
  path_root s = [] \/ path_root s = [SLASH] \/ path_root s = [SLASH; SLASH].
Proof.
  unfold path_root.
  destruct (length s - length (lstrip [SLASH] s))%nat as [|[|[|n]]]; tauto.
Qed.

(** Reading the string form of a [Path] as a [Path] again changes
    nothing. *)
Lemma pure_path_nonempty s : pure_path s <> [].
Proof.
  unfold pure_path.
  destruct (path_root s
            ++ join [SLASH]
                 (List.filter is_component (split_slash_from [] (lstrip [SLASH] s))));
    discriminate.
Qed.

Lemma pure_path_idempotent s : pure_path (pure_path s) = pure_path s.
Proof.
  unfold pure_path at 2 3.
  set (parts := List.filter is_component (split_slash_from [] (lstrip [SLASH] s))).
  assert (Forall (fun x => is_component x = true) parts) as Hc.
  { apply List.Forall_forall. intros x Hx. now apply filter_In in Hx. }
  assert (Forall slash_free parts) as Hf.
  { pose proof (split_slash_pieces (lstrip [SLASH] s) [] (List.Forall_nil _)) as H.
    apply List.Forall_forall. intros x Hx. apply filter_In in Hx as [Hx _].
    exact (proj1 (List.Forall_forall _ _) H x Hx). }
  set (J := join [SLASH] parts).
  assert (lstrip [SLASH] J = J) as HJ by now apply join_components_head.
  assert (List.filter is_component (split_slash_from [] J) = parts) as Hparts.
  { destruct parts as [|p ps] eqn:Ep; [reflexivity|]. unfold J.
    rewrite split_slash_join by (exact Hf || discriminate).
    apply forallb_filter_id, forallb_forall. intros x Hx.
    exact (proj1 (List.Forall_forall _ _) Hc x Hx). }
  assert (forall root,
            root = [] \/ root = [SLASH] \/ root = [SLASH; SLASH] ->
            lstrip [SLASH] (root ++ J) = J /\ path_root (root ++ J) = root) as Hroot.
  { intros root Hr.
    assert (lstrip [SLASH] (root ++ J) = J) as Hl.
    { destruct Hr as [->|[->| ->]]; [exact HJ| |];
        unfold lstrip, mem in *; cbn [app dropwhile existsb];
        change (SLASH =? SLASH) with true; cbn [orb]; exact HJ. }
    split; [exact Hl|]. unfold path_root. rewrite Hl, length_app.
    replace (length root + length J - length J)%nat with (length root) by lia.
    now destruct Hr as [->|[->| ->]]. }
  destruct (Hroot _ (path_root_cases s)) as [Hl Hr].
  destruct (path_root s ++ J) as [|c t] eqn:ET; [reflexivity|].
  unfold pure_path. rewrite Hl, Hparts. fold J. rewrite Hr, ET. reflexivity.
Qed.

End PurePaths.

(** ** [normalize_text_file] and [normalize_files], case by case *)

Section NormalizeFile.

Context {Ext : Type}.
Implicit Types (st : State Ext) (path : list N).

(** The whole behaviour of [normalize_text_file], by what the store holds
    at the path and the outcome of the clean transform. *)
Lemma normalize_text_file_run st path :
  let w := world st in
  let p := resolve (cwd w) path in
  normalize_text_file path st
  = match files w !! p with
    | None => (Ret false, mkState w (Stat p :: log st))
    | Some Dir => (Ret false, mkState w (Stat p :: Stat p :: log st))
    | Some (File raw) => on_content st p true raw
    | Some (ReadOnly raw) => on_content st p false raw
    | Some NoAccess => (Raise OSError, mkState w (Stat p :: Stat p :: log st))
    | Some Unreachable => (Raise OSError, st)
    end.
Proof.
  destruct st as [w lg]. cbn [world log]. unfold on_content.
  unfold normalize_text_file, bind, path_exists, path_is_file. cbn [world log].
  destruct (files w !! resolve (cwd w) path) as [[|raw|raw| |]|] eqn:Hp;
    cbn [negb orb world log]; rewrite ?Hp; cbn [negb orb]; try reflexivity.
  all: unfold read_bytes, ret; cbn [world log]; rewrite Hp; unfold clean_bytes;
    try reflexivity.
  all: destruct (utf8_decode (replace_crlf raw)) as [text|] eqn:Hd; [|reflexivity].
  all: destruct (cleaned_text_encodes _ _ Hd) as [out Hout]; rewrite Hout.
  all: destruct (bool_decide (out = raw)); [reflexivity|].
  all: unfold write_text; cbn [world log cwd files ext]; rewrite Hp.
  - now rewrite translate_newlines_id, Hout.
  - reflexivity.
Qed.

(** The cases of [on_content], with the events it adds. *)
Lemma on_content_cases st p writable raw :
  let w := world st in
  let lg := ReadBytes p :: Stat p :: Stat p :: log st in
  (clean_already raw /\ on_content st p writable raw = (Ret false, mkState w lg))
  \/ (exists out,
        clean_bytes raw = Some out /\ out <> raw
        /\ on_content st p writable raw
           = if writable
             then (Ret true,
                   mkState (mkWorld (cwd w) (<[p := File out]> (files w)) (ext w))
                           (WriteText p out :: lg))
             else (Raise OSError, mkState w lg)).
Proof.
  cbv zeta. unfold on_content, clean_already.
  destruct (clean_bytes raw) as [out|] eqn:Hc; [|left; split; [now left|reflexivity]].
  destruct (bool_decide (out = raw)) eqn:E.
  - apply bool_decide_eq_true in E. subst out. left. split; [now right|reflexivity].
  - apply bool_decide_eq_false in E. right. exists out. now repeat split.
Qed.

(** [normalize_text_file] returns or raises [OSError], keeps the working
    directory, and logs only file system events, all of them on the path
    it was given. *)
Lemma normalize_text_file_frame st path :
  exists r w evs,
    normalize_text_file path st = (r, mkState w (evs ++ log st))
    /\ cwd w = cwd (world st)
    /\ Forall (fun e => is_fs_event e = true
                        /\ event_path e = Some (resolve (cwd (world st)) path)) evs
    /\ (r = Raise OSError \/ exists b, r = Ret b).
Proof.
  rewrite normalize_text_file_run. cbv zeta.
  set (p := resolve (cwd (world st)) path).
  assert (forall (r : result bool) (w : World Ext) evs,
            cwd w = cwd (world st) ->
            Forall (fun e => is_fs_event e = true /\ event_path e = Some p) evs ->
            r = Raise OSError \/ (exists b, r = Ret b) ->
            exists r' w' evs',
              (r, mkState w (evs ++ log st)) = (r', mkState w' (evs' ++ log st))
              /\ cwd w' = cwd (world st)
              /\ Forall (fun e => is_fs_event e = true /\ event_path e = Some p) evs'
              /\ (r' = Raise OSError \/ exists b, r' = Ret b)) as Hpack
    by (intros r w evs; eauto 10).
  destruct (files (world st) !! p) as [[|raw|raw| |]|].
  - apply (Hpack _ _ [Stat p; Stat p]); [reflexivity|repeat constructor|eauto].
  - destruct (on_content_cases st p true raw) as [[_ ->]|(out & _ & _ & ->)].
    + apply (Hpack _ _ [ReadBytes p; Stat p; Stat p]);
        [reflexivity|repeat constructor|eauto].
    + apply (Hpack _ _ [WriteText p out; ReadBytes p; Stat p; Stat p]);
        [reflexivity|repeat constructor|eauto].
  - destruct (on_content_cases st p false raw) as [[_ ->]|(out & _ & _ & ->)].
    + apply (Hpack _ _ [ReadBytes p; Stat p; Stat p]);
        [reflexivity|repeat constructor|eauto].
    + apply (Hpack _ _ [ReadBytes p; Stat p; Stat p]);
        [reflexivity|repeat constructor|eauto].
  - apply (Hpack _ _ [Stat p; Stat p]); [reflexivity|repeat constructor|eauto].
  - destruct st as [w lg]. apply (Hpack _ w []); [reflexivity|constructor|eauto].
  - apply (Hpack _ _ [Stat p]); [reflexivity|repeat constructor|eauto].
Qed.

Lemma normalize_files_frame allowlist :
  forall st, exists r w evs,
    normalize_files allowlist st = (r, mkState w (evs ++ log st))
    /\ cwd w = cwd (world st)
    /\ Forall (fun e =>
         is_fs_event e = true
         /\ exists rel, In rel allowlist
              /\ event_path e = Some (resolve (cwd (world st)) (pure_path rel))) evs
    /\ (r = Raise OSError \/ exists changed, r = Ret changed).
Proof.
  induction allowlist as [|rel rest IH]; intros st.
  - exists (Ret []), (world st), []. destruct st. repeat split; eauto.
  - cbn [normalize_files]. unfold bind.
    destruct (normalize_text_file_frame st (pure_path rel))
      as (r1 & w1 & evs1 & -> & Hc1 & H1 & Hr1).
    assert (Forall (fun e =>
              is_fs_event e = true
              /\ exists rel0, In rel0 (rel :: rest)
                   /\ event_path e
                      = Some (resolve (cwd (world st)) (pure_path rel0))) evs1) as H1'.
    { eapply Forall_impl; [exact H1|]. intros e [He Hp]. split; [exact He|].
      exists rel. split; [now left|exact Hp]. }
    destruct Hr1 as [->|[b ->]].
    + exists (Raise OSError), w1, evs1. repeat split; eauto.
    + destruct (IH (mkState w1 (evs1 ++ log st)))
        as (r2 & w2 & evs2 & -> & Hc2 & H2 & Hr2).
      cbn [world log] in *. unfold ret.
      assert (Forall (fun e =>
                is_fs_event e = true
                /\ exists rel0, In rel0 (rel :: rest)
                     /\ event_path e
                        = Some (resolve (cwd (world st)) (pure_path rel0)))
                (evs2 ++ evs1)) as H12.
      { apply Forall_app; split; [|exact H1'].
        eapply Forall_impl; [exact H2|]. intros e (He & rel0 & Hin & Hp).
        split; [exact He|]. exists rel0. split; [now right|]. now rewrite <- Hc1. }
      destruct Hr2 as [->|[ch ->]].
      * exists (Raise OSError), w2, (evs2 ++ evs1). rewrite <- app_assoc.
        repeat split; [congruence|exact H12|now left].
      * exists (Ret (if b then rel :: ch else ch)), w2, (evs2 ++ evs1).
        rewrite <- app_assoc. repeat split; [congruence|exact H12|eauto].
Qed.

(** One call, in full: the working directory, the abstract part of the
    world and every other path are kept; [True] means that a writable
    regular file got its clean bytes, which differ from what it held;
    [False] that the path was settled and nothing changed; [OSError] that
    the path was refused and nothing changed. *)
Lemma normalize_text_file_step st path :
  let p := resolve (cwd (world st)) path in
  let st1 := snd (normalize_text_file path st) in
  cwd (world st1) = cwd (world st)
  /\ ext (world st1) = ext (world st)
  /\ (forall q, q <> p -> files (world st1) !! q = files (world st) !! q)
  /\ match fst (normalize_text_file path st) with
     | Ret true =>
         exists raw out,
           files (world st) !! p = Some (File raw)
           /\ clean_bytes raw = Some out /\ out <> raw
           /\ files (world st1) !! p = Some (File out)
     | Ret false => world st1 = world st /\ settled (world st) p
     | Raise e => e = OSError /\ world st1 = world st /\ refused (world st) p
     end.
Proof.
  cbv zeta. rewrite normalize_text_file_run. cbv zeta. unfold settled, refused.
  set (p := resolve (cwd (world st)) path).
  destruct (files (world st) !! p) as [[|raw|raw| |]|] eqn:Hp; cbn [fst snd world];
    try (repeat split; trivial; fail).
  - destruct (on_content_cases st p true raw) as [[Hca ->]|(out & Hc & Hne & ->)];
      cbn [fst snd world cwd ext files]; [repeat split; trivial|].
    split; [reflexivity|]. split; [reflexivity|]. split.
    + intros q Hq. now rewrite lookup_insert_ne by congruence.
    + exists raw, out. rewrite lookup_insert_eq. now repeat split.
  - destruct (on_content_cases st p false raw) as [[Hca ->]|(out & Hc & Hne & ->)];
      cbn [fst snd world]; [repeat split; trivial|].
    repeat split. unfold clean_already. intros [H|H]; congruence.
Qed.

(** Whether a path is refused, and whether it is settled, is not changed
    by a call on any path, except that the path of a call that returned
    is settled afterwards. *)
Lemma normalize_text_file_keeps st path q :
  let w1 := world (snd (normalize_text_file path st)) in
  (refused w1 q <-> refused (world st) q)
  /\ (settled (world st) q -> settled w1 q /\ files w1 !! q = files (world st) !! q)
  /\ ((exists b, fst (normalize_text_file path st) = Ret b) ->
      settled w1 (resolve (cwd (world st)) path)).
Proof.
  cbv zeta. destruct (normalize_text_file_step st path) as (_ & _ & Hframe & Hres).
  cbv zeta in Hframe, Hres.
  set (p := resolve (cwd (world st)) path) in *.
  set (st1 := snd (normalize_text_file path st)) in *.
  destruct (fst (normalize_text_file path st)) as [[|]|e].
  - destruct Hres as (raw & out & Hraw & Hc & Hne & Hout).
    assert (clean_already out) as Hclean
      by (right; exact (clean_bytes_idempotent _ _ Hc)).
    split; [|split].
    + unfold refused. destruct (decide (q = p)) as [->|Hq].
      * rewrite Hraw, Hout. tauto.
      * now rewrite (Hframe q Hq).
    + unfold settled. destruct (decide (q = p)) as [->|Hq].
      * rewrite Hraw, Hout. intros [H|H]; congruence.
      * rewrite (Hframe q Hq). tauto.
    + intros _. unfold settled. now rewrite Hout.
  - destruct Hres as [-> Hset]. split; [tauto|]. split; [tauto|]. now intros _.
  - destruct Hres as (_ & -> & _). split; [tauto|]. split; [tauto|].
    intros [b [=]].
Qed.

(** One turn of the loop of [normalize_files]. *)
Lemma normalize_files_cons rel rest st :
  let first := normalize_text_file (pure_path rel) st in
  match fst first with
  | Raise e => normalize_files (rel :: rest) st = (Raise e, snd first)
  | Ret b =>
      normalize_files (rel :: rest) st
      = (match fst (normalize_files rest (snd first)) with
         | Ret changed => Ret (if b then rel :: changed else changed)
         | Raise e => Raise e
         end,
         snd (normalize_files rest (snd first)))
  end.
Proof.
  cbv zeta. cbn [normalize_files]. unfold bind, ret.
  destruct (normalize_text_file (pure_path rel) st) as [[b|e] st1]; cbn [fst snd];
    [|reflexivity].
  now destruct (normalize_files rest st1) as [[ch|e] st2].
Qed.

Lemma normalize_files_cwd allowlist :
  forall st, cwd (world (snd (normalize_files allowlist st))) = cwd (world st).
Proof.
  intros st.
  destruct (normalize_files_frame allowlist st) as (r & w & evs & -> & H & _).
  exact H.
Qed.

(** Through [normalize_files], a refused path stays refused and no other
    becomes so, and a settled path stays settled with the same content. *)
Lemma normalize_files_keeps allowlist q :
  forall st,
  let w1 := world (snd (normalize_files allowlist st)) in
  (refused w1 q <-> refused (world st) q)
  /\ (settled (world st) q -> settled w1 q /\ files w1 !! q = files (world st) !! q).
Proof.
  induction allowlist as [|rel rest IH]; intros st; cbv zeta; [cbn; tauto|].
  pose proof (normalize_files_cons rel rest st) as Hcons. cbv zeta in Hcons.
  destruct (normalize_text_file_keeps st (pure_path rel) q) as (Hr & Hs & _).
  cbv zeta in Hr, Hs.
  destruct (fst (normalize_text_file (pure_path rel) st)) as [b|e];
    rewrite Hcons; cbn [snd]; [|tauto].
  destruct (IH (snd (normalize_text_file (pure_path rel) st))) as [Hr' Hs'].
  cbv zeta in Hr', Hs'. split; [tauto|]. intros H.
  destruct (Hs H) as [H1 H2]. destruct (Hs' H1) as [H3 H4]. split; [exact H3|congruence].
Qed.

(** [normalize_files] returns, or raises [OSError] at a path of its list
    that was refused from the start. *)
Lemma normalize_files_outcome allowlist :
  forall st,
  (exists changed, fst (normalize_files allowlist st) = Ret changed)
  \/ (fst (normalize_files allowlist st) = Raise OSError
      /\ exists rel,
           In rel allowlist
           /\ refused (world st) (resolve (cwd (world st)) (pure_path rel))).
Proof.
  induction allowlist as [|rel rest IH]; intros st; [left; now exists []|].
  pose proof (normalize_files_cons rel rest st) as Hcons. cbv zeta in Hcons.
  destruct (normalize_text_file_step st (pure_path rel)) as (Hcwd & _ & _ & Hres).
  cbv zeta in Hcwd, Hres.
  destruct (fst (normalize_text_file (pure_path rel) st)) as [b|e] eqn:E.
  - rewrite Hcons. cbn [fst].
    destruct (IH (snd (normalize_text_file (pure_path rel) st)))
      as [[ch ->]|(-> & rel' & Hin & Href)].
    + left. eauto.
    + right. split; [reflexivity|]. exists rel'. split; [now right|].
      rewrite Hcwd in Href.
      now apply (normalize_text_file_keeps st (pure_path rel)) in Href.
  - rewrite Hcons. cbn [fst]. destruct Hres as (-> & _ & Href).
    right. split; [reflexivity|]. exists rel. split; [now left|exact Href].
Qed.

End NormalizeFile.

(** ** Properties of normalization *)

Section NormalizeClaims.

Context {Ext : Type}.
Implicit Types (st : State Ext) (path : list N).



(** C8.  A readable file, writable or not, whose bytes hold no carriage
    return and no space or tab directly before a line feed or the end of
    the file is reported unchanged, is read but not written, and the world
    stays as it was. *)
Theorem tidy_file_is_left_alone st path raw :
  files (world st) !! resolve (cwd (world st)) path = Some (File raw)
  \/ files (world st) !! resolve (cwd (world st)) path = Some (ReadOnly raw) ->
  tidy raw = true ->
  exists st' evs,
    normalize_text_file path st = (Ret false, st')
    /\ world st' = world st
    /\ log st' = evs ++ log st
    /\ Forall (fun e => match e with WriteText _ _ => False | _ => True end) evs.
Proof.
  intros Hfile Ht. rewrite normalize_text_file_run. cbv zeta.
  set (p := resolve (cwd (world st)) path) in *.
  assert (clean_already raw) as Hca.
  { destruct (utf8_decode raw) as [text|] eqn:Hd.
    - right. apply clean_bytes_fixed; [exact Ht|eauto].
    - left. unfold clean_bytes.
      rewrite replace_crlf_id by (eapply tidy_then_no_cr, Ht). now rewrite Hd. }
  assert (forall writable,
            on_content st p writable raw
            = (Ret false, mkState (world st) ([ReadBytes p; Stat p; Stat p] ++ log st)))
    as Hon.
  { intros writable.
    destruct (on_content_cases st p writable raw) as [[_ ->]|(out & Hc & Hne & _)];
      [reflexivity|].
    destruct Hca as [Hca|Hca]; congruence. }
  destruct Hfile as [-> | ->]; rewrite Hon;
    eexists _, [ReadBytes p; Stat p; Stat p];
    (split; [reflexivity|]; split; [reflexivity|]; split; [reflexivity|]);
    repeat constructor.
Qed.

(** C9.  The clean transform is idempotent on bytes, and a second run of
    [normalize_text_file] on the same path leaves the world as the first
    run left it: it reports no change when the first run returned, and is
    refused as the first run was when that one was refused. *)
Theorem normalization_is_idempotent st path :
  (forall raw,
     match clean_bytes raw with
     | Some out => clean_bytes out = Some out
     | None => True
     end)
  /\ (let (r1, st1) := normalize_text_file path st in
      let (r2, st2) := normalize_text_file path st1 in
      world st2 = world st1
      /\ match r1 with
         | Ret _ => r2 = Ret false
         | Raise e => r2 = Raise e
         end).
Proof.
  split.
  - intros raw. destruct (clean_bytes raw) as [out|] eqn:H; [|exact I].
    eapply clean_bytes_idempotent, H.
  - destruct (normalize_text_file_step st path) as (Hcwd & _ & _ & Hres).
    destruct (normalize_text_file_keeps st path (resolve (cwd (world st)) path))
      as (Hr & _ & Hs).
    cbv zeta in Hcwd, Hres, Hr, Hs.
    destruct (normalize_text_file path st) as [r1 st1] eqn:E1. cbn [fst snd] in *.
    destruct (normalize_text_file_step st1 path) as (_ & _ & _ & Hres2).
    cbv zeta in Hres2. rewrite Hcwd in Hres2.
    destruct (normalize_text_file path st1) as [r2 st2] eqn:E2. cbn [fst snd] in *.
    set (p := resolve (cwd (world st)) path) in *.
    destruct r1 as [b|e].
    + specialize (Hs (ex_intro _ b eq_refl)).
      destruct r2 as [[|]|e2].
      * destruct Hres2 as (raw & out & Hraw & Hc & Hne & _).
        unfold settled in Hs. rewrite Hraw in Hs.
        destruct Hs as [Hs|Hs]; congruence.
      * now destruct Hres2.
      * destruct Hres2 as (_ & _ & Href). exfalso.
        unfold settled in Hs. unfold refused in Href.
        destruct (files (world st1) !! p) as [[| | | |]|]; tauto.
    + destruct Hres as (-> & Hw & Href). apply Hr in Href.
      destruct r2 as [[|]|e2].
      * destruct Hres2 as (raw & out & Hraw & _). unfold refused in Href.
        now rewrite Hraw in Href.
      * destruct Hres2 as [_ Hset]. exfalso.
        unfold settled in Hset. unfold refused in Href.
        destruct (files (world st1) !! p) as [[| | | |]|]; tauto.
      * destruct Hres2 as (-> & Hw2 & _). now split.
Qed.

End NormalizeClaims.

(** *** Evaluations on concrete files *)

Section NormalizeExamples.

(** The scenario of a file holding ["line1 \r\nline2\t\n"]. *)
Example normalize_scenario :
  let raw := str "line1 " ++ [CR; LF] ++ str "line2" ++ [TAB; LF] in
  let (r, st) := normalize_text_file (str "a.txt") (start (Demo.one_file raw tt)) in
  r = Ret true
  /\ files (world st) !! str "/repo/a.txt"
     = Some (File (str "line1" ++ [LF] ++ str "line2" ++ [LF])).
Proof. vm_compute. split; reflexivity. Qed.

(** A final line with content keeps its content and gets no terminator;
    a lone carriage return at the end is dropped like a space. *)
Example partial_line_scenario :
  clean_bytes (str "a" ++ [CR; LF] ++ str "b ") = Some (str "a" ++ [LF] ++ str "b")
  /\ clean_bytes (str "a" ++ [CR]) = Some (str "a").
Proof. split; reflexivity. Qed.





Lemma tidy_file_is_left_alone_witness :
  exists st' evs,
    normalize_text_file (str "a.txt")
      (start (Demo.one_file (str "a b" ++ [LF] ++ str "c" ++ [LF]) tt))
    = (Ret false, st')
    /\ world st' = world (start (Demo.one_file (str "a b" ++ [LF] ++ str "c" ++ [LF]) tt))
    /\ log st' = evs ++ []
    /\ Forall (fun e => match e with WriteText _ _ => False | _ => True end) evs.
Proof.
  apply (tidy_file_is_left_alone
           (start (Demo.one_file (str "a b" ++ [LF] ++ str "c" ++ [LF]) tt))
           (str "a.txt") (str "a b" ++ [LF] ++ str "c" ++ [LF])).
  - left. vm_compute. reflexivity.
  - vm_compute. reflexivity.
Defined.

End NormalizeExamples.

(** ** Further properties of the pure parts *)

Section ForbiddenPaths.

Lemma startswith_prefixed s prefix :
  startswith s prefix = true <-> exists rest, s = prefix ++ rest.
Proof.
  split.
  - revert s. induction prefix as [|p prefix IH]; intros s H.
    + now exists s.
    + destruct s as [|c s]; [discriminate|]. cbn [startswith] in H.
      apply andb_true_iff in H as [Hc Hs]. apply IH in Hs as [rest ->].
      exists rest. cbn. f_equal. lia.
  - intros [rest ->]. induction prefix as [|p prefix IH]; [now destruct rest|].
    cbn [app startswith]. now rewrite N.eqb_refl, IH.
Qed.

(** X3.  A path is forbidden exactly when it is a forbidden prefix
    followed by anything, the empty remainder included. *)
Theorem forbidden_iff_prefixed rel :
  is_forbidden_path rel = true
  <-> exists prefix rest, In prefix FORBIDDEN_PATH_PREFIXES /\ rel = prefix ++ rest.
Proof.
  unfold is_forbidden_path, startswith_any. split.
  - destruct (existsb (startswith rel) FORBIDDEN_PATH_PREFIXES) eqn:E; [|discriminate].
    intros _. apply existsb_exists in E as (prefix & Hin & Hs).
    apply startswith_prefixed in Hs as [rest ->]. now exists prefix, rest.
  - intros (prefix & rest & Hin & ->).
    assert (existsb (startswith (prefix ++ rest)) FORBIDDEN_PATH_PREFIXES = true) as ->;
      [|reflexivity].
    apply existsb_exists. exists prefix. split; [exact Hin|].
    apply startswith_prefixed. now exists rest.
Qed.

End ForbiddenPaths.

(** ** Further properties of [normalize_text_file] and [normalize_files] *)

Section NormalizeMore.

Context {Ext : Type}.
Implicit Types (st : State Ext) (path : list N).

(** X4.  The returned flag is accurate: [normalize_text_file] returns
    [True] exactly when what the store holds at the path differs from
    what it held before. *)
Theorem changed_flag_is_accurate st path :
  let run := normalize_text_file path st in
  let p := resolve (cwd (world st)) path in
  fst run = Ret true
  <-> files (world (snd run)) !! p <> files (world st) !! p.
Proof.
  cbv zeta. destruct (normalize_text_file_step st path) as (_ & _ & _ & Hres).
  cbv zeta in Hres.
  destruct (fst (normalize_text_file path st)) as [[|]|e].
  - destruct Hres as (raw & out & Hraw & _ & Hne & Hout). rewrite Hraw, Hout.
    split; [intros _ [= H]; contradiction|reflexivity].
  - destruct Hres as [-> _]. split; [discriminate|congruence].
  - destruct Hres as (_ & -> & _). split; [discriminate|congruence].
Qed.

(** X5.  A regular file that decodes is reported changed exactly when
    its bytes are not tidy: they hold a carriage return, or a space or tab
    directly before a line feed or the end of the file. *)
Theorem changed_iff_not_tidy st path raw :
  files (world st) !! resolve (cwd (world st)) path = Some (File raw) ->
  is_Some (utf8_decode (replace_crlf raw)) ->
  (fst (normalize_text_file path st) = Ret true <-> tidy raw = false).
Proof.
  intros Hfile [text Hd]. rewrite normalize_text_file_run. cbv zeta.
  rewrite Hfile. destruct (clean_bytes_Some _ _ Hd) as (out & Hc & _).
  unfold on_content. rewrite Hc.
  destruct (bool_decide (out = raw)) eqn:E; cbn [fst].
  - apply bool_decide_eq_true in E. subst out.
    rewrite (clean_bytes_tidy _ _ Hc). split; discriminate.
  - apply bool_decide_eq_false in E. split; [|reflexivity]. intros _.
    destruct (tidy raw) eqn:Ht; [|reflexivity]. exfalso. apply E.
    assert (clean_bytes raw = Some raw) as H; [|congruence].
    apply clean_bytes_fixed; [exact Ht|].
    rewrite replace_crlf_id in Hd by (eapply tidy_then_no_cr, Ht). eauto.
Qed.

(** X6.  Whatever a regular file holds, what it holds after
    [normalize_text_file] is its former content with some bytes deleted,
    and every deleted byte is a space, a tab or a carriage return. *)
Theorem normalization_only_deletes_blanks st path raw :
  files (world st) !! resolve (cwd (world st)) path = Some (File raw) ->
  exists out,
    files (world (snd (normalize_text_file path st)))
      !! resolve (cwd (world st)) path = Some (File out)
    /\ out `sublist_of` raw
    /\ filter (fun c => is_kept c = true) out
       = filter (fun c => is_kept c = true) raw.
Proof.
  intros Hfile. destruct (normalize_text_file_step st path) as (_ & _ & _ & Hres).
  cbv zeta in Hres.
  destruct (fst (normalize_text_file path st)) as [[|]|e].
  - destruct Hres as (raw' & out & Hraw & Hc & _ & Hout).
    assert (raw' = raw) as -> by congruence.
    exists out. split; [exact Hout|]. now apply clean_bytes_deletes.
  - destruct Hres as [-> _]. exists raw. now split.
  - destruct Hres as (_ & -> & _). exists raw. now split.
Qed.

(** X7.  [normalize_text_file] keeps the working directory and the rest
    of the world, touches no other path, and neither creates nor removes
    a path nor turns a directory into a file. *)
Theorem normalize_text_file_stays_in_place st path :
  let w := world st in
  let w' := world (snd (normalize_text_file path st)) in
  cwd w' = cwd w
  /\ ext w' = ext w
  /\ forall q,
       (q <> resolve (cwd w) path -> files w' !! q = files w !! q)
       /\ (files w' !! q = None <-> files w !! q = None)
       /\ (files w' !! q = Some Dir <-> files w !! q = Some Dir).
Proof.
  cbv zeta.
  destruct (normalize_text_file_step st path) as (Hcwd & Hext & Hframe & Hres).
  cbv zeta in Hcwd, Hext, Hframe, Hres.
  split; [exact Hcwd|]. split; [exact Hext|]. intros q.
  split; [apply Hframe|].
  destruct (decide (q = resolve (cwd (world st)) path)) as [->|Hq];
    [|rewrite (Hframe q Hq); tauto].
  destruct (fst (normalize_text_file path st)) as [[|]|e].
  - destruct Hres as (raw & out & Hraw & _ & _ & Hout). rewrite Hraw, Hout.
    repeat split; discriminate.
  - destruct Hres as [-> _]. tauto.
  - destruct Hres as (_ & -> & _). tauto.
Qed.

End NormalizeMore.

Section NormalizeFilesMore.

Context {Ext : Type}.
Implicit Types (st : State Ext) (path : list N).

(** Every path of the list is settled once [normalize_files] has
    returned. *)
Lemma normalize_files_settles allowlist :
  forall st rel,
  (exists changed, fst (normalize_files allowlist st) = Ret changed) ->
  In rel allowlist ->
  settled (world (snd (normalize_files allowlist st)))
    (resolve (cwd (world st)) (pure_path rel)).
Proof.
  induction allowlist as [|r rest IH]; intros st rel Hret Hin; [destruct Hin|].
  pose proof (normalize_files_cons r rest st) as Hcons. cbv zeta in Hcons.
  destruct (normalize_text_file_step st (pure_path r)) as (Hcwd & _).
  cbv zeta in Hcwd.
  destruct (normalize_text_file_keeps st (pure_path r)
              (resolve (cwd (world st)) (pure_path r))) as (_ & _ & Hs).
  cbv zeta in Hs.
  destruct (fst (normalize_text_file (pure_path r) st)) as [b|e];
    rewrite Hcons in Hret |- *; cbn [fst snd] in *; [|now destruct Hret].
  set (st1 := snd (normalize_text_file (pure_path r) st)) in *.
  destruct (fst (normalize_files rest st1)) as [ch|e] eqn:Erest;
    [|now destruct Hret].
  destruct Hin as [->|Hin].
  - now apply normalize_files_keeps, Hs; exists b.
  - rewrite <- Hcwd. apply IH; [now exists ch|exact Hin].
Qed.

(** On settled paths [normalize_files] reports no change and leaves the
    world alone. *)
Lemma normalize_files_settled allowlist :
  forall st,
  (forall rel, In rel allowlist ->
     settled (world st) (resolve (cwd (world st)) (pure_path rel))) ->
  fst (normalize_files allowlist st) = Ret []
  /\ world (snd (normalize_files allowlist st)) = world st.
Proof.
  induction allowlist as [|r rest IH]; intros st H; [now split|].
  pose proof (normalize_files_cons r rest st) as Hcons. cbv zeta in Hcons.
  destruct (normalize_text_file_step st (pure_path r)) as (_ & _ & _ & Hres).
  cbv zeta in Hres.
  pose proof (H r (or_introl eq_refl)) as Hr.
  destruct (fst (normalize_text_file (pure_path r) st)) as [[|]|e].
  - exfalso. destruct Hres as (raw & out & Hraw & Hc & Hne & _).
    unfold settled in Hr. rewrite Hraw in Hr. destruct Hr as [Hr|Hr]; congruence.
  - destruct Hres as [Hw _]. rewrite Hcons. cbn [fst snd].
    destruct (IH (snd (normalize_text_file (pure_path r) st))) as [-> ->].
    + intros rel Hin. rewrite Hw. apply H. now right.
    + now split.
  - exfalso. destruct Hres as (_ & _ & Href). unfold settled in Hr.
    unfold refused in Href.
    destruct (files (world st) !! resolve (cwd (world st)) (pure_path r))
      as [[| | | |]|]; tauto.
Qed.

(** X8.  When [normalize_files] returns, the list it returns is taken from
    its argument in order, and it names exactly the paths whose content
    changed: the store differs at a path exactly when an entry of the
    returned list, read as a [Path], resolves to it.  Otherwise it raises
    [OSError]. *)
Theorem normalize_files_reports_changes allowlist :
  forall st,
  match fst (normalize_files allowlist st) with
  | Ret changed =>
      changed `sublist_of` allowlist
      /\ forall p,
           files (world (snd (normalize_files allowlist st))) !! p
             <> files (world st) !! p
           <-> exists rel,
                 In rel changed /\ resolve (cwd (world st)) (pure_path rel) = p
  | Raise e => e = OSError
  end.
Proof.
  induction allowlist as [|r rest IH]; intros st.
  - cbn. split; [constructor|]. intros p.
    split; [contradiction|now intros (rel & [] & _)].
  - pose proof (normalize_files_cons r rest st) as Hcons. cbv zeta in Hcons.
    destruct (normalize_text_file_step st (pure_path r))
      as (Hcwd & _ & Hframe & Hres).
    destruct (normalize_text_file_keeps st (pure_path r)
                (resolve (cwd (world st)) (pure_path r))) as (_ & _ & Hs).
    cbv zeta in Hcwd, Hframe, Hres, Hs.
    set (p0 := resolve (cwd (world st)) (pure_path r)) in *.
    destruct (fst (normalize_text_file (pure_path r) st)) as [b|e];
      rewrite Hcons; cbn [fst snd]; [|now destruct Hres].
    set (st1 := snd (normalize_text_file (pure_path r) st)) in *.
    specialize (IH st1). specialize (Hs (ex_intro _ b eq_refl)).
    destruct (normalize_files_keeps rest p0 st1) as [_ Hkeep]. cbv zeta in Hkeep.
    destruct (Hkeep Hs) as [_ Hsame].
    destruct (fst (normalize_files rest st1)) as [ch|e]; [|exact IH].
    destruct IH as [Hsub Hiff]. rewrite Hcwd in Hiff.
    destruct b.
    + destruct Hres as (raw & out & Hraw & _ & Hne & Hout).
      split; [now apply sublist_skip|].
      intros p. destruct (decide (p = p0)) as [->|Hp].
      * split; [intros _; exists r; split; [now left|reflexivity]|]. intros _.
        rewrite Hsame, Hraw, Hout. intros [= H]. contradiction.
      * rewrite <- (Hframe p Hp), Hiff.
        split; intros (rel & Hin & Hrel).
        -- exists rel. split; [now right|exact Hrel].
        -- destruct Hin as [<-|Hin]; [exfalso; apply Hp; symmetry; exact Hrel|].
           now exists rel.
    + destruct Hres as [Hw _]. split; [now apply sublist_cons|].
      intros p. rewrite <- Hiff. now rewrite Hw.
Qed.

(** X9.  [normalize_files] is idempotent: run again on the same list it
    leaves the world as the first run left it; it returns the empty list
    when the first run returned, and raises again when the first run
    raised. *)
Theorem normalize_files_idempotent allowlist st :
  let st1 := snd (normalize_files allowlist st) in
  world (snd (normalize_files allowlist st1)) = world st1
  /\ match fst (normalize_files allowlist st) with
     | Ret _ => fst (normalize_files allowlist st1) = Ret []
     | Raise e => fst (normalize_files allowlist st1) = Raise e
     end.
Proof.
  cbv zeta.
  assert (forall l (sa sb : State Ext),
            world sb = world (snd (normalize_files l sa)) ->
            world (snd (normalize_files l sb)) = world sb
            /\ match fst (normalize_files l sa) with
               | Ret _ => fst (normalize_files l sb) = Ret []
               | Raise e => fst (normalize_files l sb) = Raise e
               end) as Hgen; [|now apply Hgen].
  clear allowlist st. intros l sa sb Hw.
  destruct (normalize_files_outcome l sa) as [Hret|(Hraise & _)].
  - destruct (normalize_files_settled l sb) as [H1 H2].
    + intros rel Hin. rewrite Hw, normalize_files_cwd.
      now apply normalize_files_settles.
    + destruct Hret as [ch ->]. now split.
  - rewrite Hraise. revert sa sb Hw Hraise.
    induction l as [|r rest IH]; intros sa sb Hw Hraise; [discriminate Hraise|].
    pose proof (normalize_files_cons r rest sa) as Ha.
    pose proof (normalize_files_cons r rest sb) as Hb. cbv zeta in Ha, Hb.
    destruct (normalize_text_file_step sa (pure_path r)) as (Hcwd & _ & _ & Hres).
    destruct (normalize_text_file_keeps sa (pure_path r)
                (resolve (cwd (world sa)) (pure_path r))) as (Hr & _ & Hs).
    destruct (normalize_text_file_step sb (pure_path r)) as (_ & _ & _ & Hres').
    cbv zeta in Hcwd, Hres, Hr, Hs, Hres'.
    set (pa := resolve (cwd (world sa)) (pure_path r)) in *.
    set (sa1 := snd (normalize_text_file (pure_path r) sa)) in *.
    assert (cwd (world sb) = cwd (world sa)) as Hcwdb
      by (rewrite Hw; apply normalize_files_cwd).
    rewrite Hcwdb in Hres'. fold pa in Hres'.
    destruct (fst (normalize_text_file (pure_path r) sa)) as [b|e].
    + (* the first call returned: the path is settled in [sb] *)
      rewrite Ha in Hraise, Hw. cbn [fst snd] in Hraise, Hw.
      destruct (fst (normalize_files rest sa1)) as [ch|e] eqn:Erest;
        [discriminate Hraise|]. injection Hraise as ->.
      assert (settled (world sb) pa) as Hset.
      { rewrite Hw. apply normalize_files_keeps. apply Hs. now exists b. }
      destruct (fst (normalize_text_file (pure_path r) sb)) as [[|]|e'].
      * exfalso. destruct Hres' as (raw & out & Hraw & Hc & Hne & _).
        unfold settled in Hset. rewrite Hraw in Hset.
        destruct Hset as [H|H]; congruence.
      * destruct Hres' as [Hwb _]. rewrite Hb. cbn [fst snd].
        destruct (IH sa1 (snd (normalize_text_file (pure_path r) sb)))
          as [H1 H2]; [congruence|exact Erest|].
        rewrite H2. split; [congruence|reflexivity].
      * exfalso. destruct Hres' as (_ & _ & Href). unfold settled in Hset.
        unfold refused in Href.
        destruct (files (world sb) !! pa) as [[| | | |]|]; tauto.
    + (* the first call was refused: so is the second *)
      rewrite Ha in Hraise, Hw. cbn [fst snd] in Hraise, Hw.
      injection Hraise as ->. destruct Hres as (_ & Hwa & Href).
      assert (refused (world sb) pa) as Href' by (rewrite Hw, Hwa; exact Href).
      destruct (fst (normalize_text_file (pure_path r) sb)) as [[|]|e'].
      * exfalso. destruct Hres' as (raw & out & Hraw & _).
        unfold refused in Href'. now rewrite Hraw in Href'.
      * exfalso. destruct Hres' as [_ Hset]. unfold settled in Hset.
        unfold refused in Href'.
        destruct (files (world sb) !! pa) as [[| | | |]|]; tauto.
      * destruct Hres' as (-> & Hwb & _). rewrite Hb. cbn [fst snd].
        split; [exact Hwb|reflexivity].
Qed.

(** X10.  Every event [normalize_files] adds to the log is a stat, a read
    or a write of a path of its argument, read as a [Path] and resolved
    against the working directory: no other file is looked at and no
    command is run. *)
Theorem normalize_files_scope allowlist st :
  exists evs,
    log (snd (normalize_files allowlist st)) = evs ++ log st
    /\ Forall (fun e =>
         is_fs_event e = true
         /\ exists rel, In rel allowlist
              /\ event_path e
                 = Some (resolve (cwd (world st)) (pure_path rel))) evs.
Proof.
  destruct (normalize_files_frame allowlist st) as (r & w1 & evs & E & _ & H & _).
  exists evs. rewrite E. split; [reflexivity|exact H].
Qed.

End NormalizeFilesMore.

(** ** Runs of [main] *)

Section MainRuns.

Context {Ext : Type}.
Variable sr : list (list N) -> bool -> World Ext -> reply * World Ext.
Variable enc : N -> bool.
Implicit Types (st : State Ext).

(** The return codes that [subprocess] reports fit the exit status. *)
Lemma returncode_range how : (-128 < returncode_of how < 256)%Z.
Proof. destruct how; cbn [returncode_of]; lia. Qed.

(** The status of a failed command is not 0. *)
Lemma failure_status rc :
  (-128 < rc < 256)%Z -> rc <> 0%Z -> (rc mod 256)%Z <> 0%Z.
Proof. lia. Qed.


Lemma encodable_ascii s :
  forallb (fun c => c <? 128) s = true -> forallb (encodable enc) s = true.
Proof.
  intros H. apply forallb_forall. intros c Hc.
  apply (proj1 (forallb_forall _ _) H) in Hc. unfold encodable. now rewrite Hc.
Qed.

(** [normalize_files] inside a run: it returns or raises [OSError], and
    what it adds to the log are file system events on paths of the
    allowlist. *)
Lemma normalize_files_in_run allowlist st :
  exists r w evs,
    normalize_files allowlist st = (r, mkState w (evs ++ log st))
    /\ cwd w = cwd (world st)
    /\ Forall (fun e => is_fs_event e = true) evs
    /\ Forall (fun e => exists rel, In rel allowlist
                 /\ event_path e
                    = Some (resolve (cwd (world st)) (pure_path rel))) evs
    /\ (r = Raise OSError \/ exists changed, r = Ret changed).
Proof.
  destruct (normalize_files_frame allowlist st) as (r & w & evs & E & Hc & H & Hr).
  exists r, w, evs. split; [exact E|]. split; [exact Hc|].
  split; [|split; [|exact Hr]]; (eapply Forall_impl; [exact H|]); now intros e [].
Qed.

Lemma safety_checks_cases allowlist :
  (Forall (fun f => is_forbidden_path f = false) allowlist
   /\ forall st, safety_checks allowlist st = (Ret tt, st))
  \/ (exists f, In f allowlist /\ is_forbidden_path f = true
      /\ forall st,
           safety_checks allowlist st
           = (Raise (SystemExit
                       (ExitMsg (str "Refusing to stage forbidden path: " ++ f))),
              st)).
Proof.
  induction allowlist as [|f rest IH]; [left; split; [constructor|reflexivity]|].
  cbn [safety_checks]. destruct (is_forbidden_path f) eqn:E.
  - right. exists f. repeat split; [now left|exact E].
  - destruct IH as [[H Hs]|(g & Hg & Hforb & Hs)].
    + left. split; [now constructor|exact Hs].
    + right. exists g. repeat split; [now right|exact Hforb|exact Hs].
Qed.

Lemma eprint_each_run names : forall st,
  eprint_each names st
  = (Ret tt,
     mkState (world st)
       (rev (map (fun f => Stderr ((str " - " ++ f) ++ [LF])) names) ++ log st)).
Proof.
  induction names as [|f rest IH]; intros st; [now destruct st|].
  cbn [eprint_each]. unfold bind, eprint, emit. rewrite IH. cbn [world log map rev].
  now rewrite <- (app_assoc (rev (map _ rest))).
Qed.

Lemma nonempty_false {A} (l : list A) : nonempty l = false -> l = [].
Proof. now destruct l. Qed.

Lemma nonempty_true {A} (l : list A) : nonempty l = true -> l <> [].
Proof. now destruct l. Qed.

Lemma last_spawn_skip evs rest :
  Forall (fun e => match e with Spawn _ _ _ _ => False | _ => True end) evs ->
  last_spawn (evs ++ rest) = last_spawn rest.
Proof.
  induction 1 as [|e evs He _ IH]; [reflexivity|].
  destruct e; try contradiction; exact IH.
Qed.

Lemma last_spawn_listing names rest :
  last_spawn (rev (map (fun f => Stderr ((str " - " ++ f) ++ [LF])) names) ++ rest)
  = last_spawn rest.
Proof.
  apply last_spawn_skip. rewrite <- map_rev. apply Forall_map.
  apply Forall_forall. intros; exact I.
Qed.


Lemma filter_empty_Forall (names : list (list N)) :
  filter (fun f => is_forbidden_path f = true) names = [] ->
  Forall (fun f => is_forbidden_path f = false) names.
Proof.
  induction names as [|f rest IH]; [constructor|].
  rewrite filter_cons. destruct (decide (is_forbidden_path f = true)) as [E|E].
  - discriminate.
  - intros H. constructor; [now destruct (is_forbidden_path f)|now apply IH].
Qed.

Lemma startswith_app prefix rest : startswith (prefix ++ rest) prefix = true.
Proof.
  induction prefix as [|p prefix IH]; [now destruct rest|].
  cbn [app startswith]. now rewrite N.eqb_refl, IH.
Qed.

Lemma is_forbidden_prefixed prefix rest :
  In prefix FORBIDDEN_PATH_PREFIXES -> is_forbidden_path (prefix ++ rest) = true.
Proof.
  intros H. unfold is_forbidden_path, startswith_any.
  assert (existsb (startswith (prefix ++ rest)) FORBIDDEN_PATH_PREFIXES = true) as ->;
    [|reflexivity].
  apply existsb_exists. exists prefix. split; [exact H|apply startswith_app].
Qed.

Lemma not_forbidden_in allowlist f :
  Forall (fun f => is_forbidden_path f = false) allowlist ->
  In f allowlist -> is_forbidden_path f = true -> False.
Proof.
  intros H Hf Hforb. apply (proj1 (List.Forall_forall _ _) H) in Hf. congruence.
Qed.

Lemma fs_invokes_nothing sub evs :
  Forall (fun e => is_fs_event e = true) evs ->
  Forall (fun e => invokes sub e = false) evs.
Proof.
  intros H. eapply Forall_impl; [exact H|]. intros []; cbn; congruence.
Qed.

Lemma fs_keeps_history evs :
  Forall (fun e => is_fs_event e = true) evs ->
  Forall (fun e => keeps_history e = true) evs.
Proof.
  intros H. eapply Forall_impl; [exact H|]. intros []; cbn; congruence.
Qed.

Lemma listing_invokes_nothing sub names :
  Forall (fun e => invokes sub e = false)
    (rev (map (fun f => Stderr ((str " - " ++ f) ++ [LF])) names)).
Proof.
  rewrite <- map_rev. apply Forall_map, List.Forall_forall. reflexivity.
Qed.

Lemma listing_keeps_history names :
  Forall (fun e => keeps_history e = true)
    (rev (map (fun f => Stderr ((str " - " ++ f) ++ [LF])) names)).
Proof.
  rewrite <- map_rev. apply Forall_map, List.Forall_forall. reflexivity.
Qed.

Lemma forbidden_filter_nil (names : list (list N)) :
  Forall (fun f => is_forbidden_path f = false) names ->
  filter (fun f => is_forbidden_path f = true) names = [].
Proof.
  induction 1 as [|f rest Hf _ IH]; [reflexivity|].
  rewrite filter_cons. destruct (decide (is_forbidden_path f = true)); [congruence|exact IH].
Qed.

Lemma fs_event_in evs e :
  Forall (fun e => is_fs_event e = true) evs -> In e evs -> is_fs_event e = true.
Proof. intros H. apply (proj1 (List.Forall_forall _ _) H). Qed.

Lemma listing_in names e :
  In e (rev (map (fun f => Stderr ((str " - " ++ f) ++ [LF])) names)) ->
  exists f, e = Stderr ((str " - " ++ f) ++ [LF]).
Proof.
  intros H. apply in_rev, in_map_iff in H as (f & <- & _). now exists f.
Qed.

(** *** Symbolic execution of a run

    The run is named and unfolded in a hypothesis, which is then advanced
    one decision at a time, always at the decision that the program takes
    next. *)

Ltac norm_in H :=
  cbv beta iota zeta delta
    [main main_on parse_args repo_root run bind spawn ret raise chdir print eprint
     emit stderr_write stdout_attr start] in H;
  cbn [world log returncode stdout stdout_or_empty andb negb orb cwd files ext
       dry_run message fst snd nonempty] in H.

(** The term on which the next reduction of [t] waits. *)
Ltac head t :=
  lazymatch t with
  | match ?x with _ => _ end => head x
  | negb ?x => head x
  | andb ?x _ => head x
  | orb ?x _ => head x
  | ?f ?a =>
      lazymatch f with
      | context [match _ with _ => _ end] => head f
      | _ =>
          lazymatch a with
          | context [match _ with _ => _ end] => head a
          | _ => t
          end
      end
  | _ => t
  end.

(** One decision.  What an earlier run in the same proof has settled
    (the answer of the tool in the same world, the outcome of a test) is
    replayed; anything else is split into its cases. *)
Ltac step_on H x :=
  lazymatch x with
  | safety_checks ?a ?s =>
      first
      [ match goal with Hs : forall st, safety_checks a st = _ |- _ =>
          rewrite (Hs s) in H
        end
      | let f := fresh "f" in
        destruct (safety_checks_cases a) as [[Hsafe Hchecks]|(f & Hf & Hforb & Hchecks)];
        rewrite (Hchecks s) in H ]
  | normalize_files ?a ?s =>
      first
      [ match goal with Hn : normalize_files a s = _ |- _ => rewrite Hn in H end
      | let r := fresh "r" in
        let changed := fresh "changed" in
        let wn := fresh "wn" in
        let evs := fresh "evs" in
        let Hr := fresh "Hr" in
        destruct (normalize_files_in_run a s)
          as (r & wn & evs & Hnorm & Hcwd & Hevs & Hscope & Hr);
        rewrite Hnorm in H; destruct Hr as [->|[changed ->]] ]
  | eprint_each ?l ?s => rewrite (eprint_each_run l s) in H
  | sr ?c ?b ?w =>
      first
      [ match goal with
        | E : sr c b w = (Ended ?how _, _), Hc : _ = returncode_of ?how |- _ =>
            rewrite E in H; norm_in H; rewrite <- ?Hc in H
        | E : sr c b w = _ |- _ => rewrite E in H
        end
      | let how := fresh "how" in
        let text := fresh "text" in
        let w' := fresh "w" in
        let E := fresh "E" in
        let rc := fresh "rc" in
        let Hcode := fresh "Hcode" in
        let Hrange := fresh "Hrange" in
        destruct (sr c b w) as [[|how text] w'] eqn:E;
        [ | pose proof (returncode_range how) as Hrange;
            set (rc := returncode_of how) in *;
            assert (Hcode : rc = returncode_of how) by reflexivity;
            clearbody rc ] ]
  | (0 =? 0)%Z => change (0 =? 0)%Z with true in H
  | (?rc =? 0)%Z =>
      first
      [ match goal with Hne : rc <> 0%Z |- _ =>
          rewrite (proj2 (Z.eqb_neq rc 0) Hne) in H
        end
      | let Hrc := fresh "Hrc" in
        destruct (Z.eqb_spec rc 0) as [Hrc|Hrc];
        [rewrite Hrc in *; clear Hrc; try clear rc|] ]
  | forallb (encodable enc) ?s =>
      first
      [ match goal with Hk : forallb (encodable enc) s = _ |- _ => rewrite Hk in H end
      | rewrite (encodable_ascii s) in H by (vm_compute; reflexivity)
      | match s with ?a ++ ?b => rewrite (forallb_app (encodable enc) a b) in H end
      | let Henc := fresh "Henc" in destruct (forallb (encodable enc) s) eqn:Henc ]
  | _ =>
      first
      [ match goal with Hk : x = _ |- _ => rewrite Hk in H end
      | is_var x; destruct x
      | let Hif := fresh "Hif" in destruct x eqn:Hif ]
  end.

Ltac step_in H :=
  lazymatch type of H with
  | _ = ?t =>
      lazymatch t with
      | context [match _ with _ => _ end] =>
          let x := head t in step_on H x; norm_in H
      end
  end.

(** Names the run of the goal [run], and splits the goal into the ways
    the run can go; in each, [Hrun] gives its result and final state. *)
Ltac exec_keep tac :=
  cbv zeta;
  match goal with
  | |- context [main_on ?s ?e ?a ?g ?st] =>
      let run := fresh "run" in
      set (run := main_on s e a g st) in *;
      assert (Hrun : run = main_on s e a g st) by reflexivity;
      clearbody run; norm_in Hrun;
      repeat (step_in Hrun; try solve [tac]);
      subst run; cbn [fst snd log world]
  end.

(** The same, forgetting how the return codes came about. *)
Ltac exec_with tac :=
  exec_keep tac;
  repeat match goal with H : _ = returncode_of _ |- _ => clear H end;
  repeat match goal with H : forall st, safety_checks _ st = _ |- _ => clear H end.

Ltac exec := exec_with fail.

Ltac refute_eq H :=
  match type of H with
  | ?a = ?b =>
      let K := fresh "K" in
      assert (K : bool_decide (a = b) = true)
        by (apply bool_decide_eq_true_2; exact H);
      vm_compute in K; discriminate K
  end.



(** Cases of a membership in an explicit log. *)
Ltac in_log H :=
  lazymatch type of H with
  | In _ [] => destruct H
  | In _ (_ :: _) => destruct H as [H|H]; [ | in_log H]
  | In _ (_ ++ _) => apply in_app_or in H; destruct H as [H|H]; [ | in_log H]
  | _ => idtac
  end.

(** Discards a membership case that names a different event. *)
Ltac other_event H :=
  unfold DRY_RUN_NOTICE, GIT_TOPLEVEL, GIT_DIFF_CHECK, GIT_STAGED, GIT_STATUS,
    GIT_ADD, GIT_BRANCH, GIT_PUSH, GIT_COMMIT in H;
  first
  [ discriminate H
  | let K := fresh "K" in
    pose proof (f_equal (fun e => match e with
                                  | Spawn c _ _ _ | Garbled c => firstn 3 c
                                  | _ => []
                                  end) H) as K;
    cbv beta iota in K; refute_eq K
  | let K := fresh "K" in
    pose proof (f_equal (fun e => match e with Stdout t | Stderr t => t | _ => [] end) H) as K;
    cbv beta iota in K; refute_eq K
  | match type of H with
    | In _ ?evs =>
        match goal with
        | Hevs : Forall (fun e => is_fs_event e = true) evs |- _ =>
            apply (fs_event_in _ _ Hevs) in H; discriminate H
        end
    end
  | let f := fresh "f" in
    apply listing_in in H as [f H]; other_event H ].

Ltac log_forall :=
  repeat first
  [ apply List.Forall_nil
  | apply List.Forall_cons; [vm_compute; reflexivity|]
  | apply Forall_app_2;
    [ first [ eapply fs_keeps_history; eassumption
            | eapply fs_invokes_nothing; eassumption
            | apply listing_keeps_history
            | apply listing_invokes_nothing ] | ] ].

(** Closes a case whose hypotheses about the staged names contradict the
    branch taken. *)
Ltac staged_mismatch :=
  exfalso;
  match goal with
  | Hne : splitlines false ?o <> [], Hif : nonempty (splitlines false ?o) = false |- _ =>
      apply Hne, nonempty_false, Hif
  | Hnil : splitlines false ?o = [], Hif : nonempty (splitlines false ?o) = true |- _ =>
      rewrite Hnil in Hif; discriminate Hif
  | Hok : Forall (fun f => is_forbidden_path f = false) (splitlines false ?o),
    Hif : nonempty (filter _ (splitlines false ?o)) = true |- _ =>
      rewrite (forbidden_filter_nil _ Hok) in Hif; discriminate Hif
  | Hm : strip ?m = [], Hif : nonempty (strip ?m) = true |- _ =>
      rewrite Hm in Hif; discriminate Hif
  | H : ?rc <> 0%Z |- _ => congruence
  end.

Ltac in_tac := cbn [log In]; repeat (first [left; reflexivity | right]).

Ltac find_in :=
  cbn [log In];
  repeat first [left; reflexivity | right | (apply in_or_app; right)].

Lemma spawned_skip evs rest :
  Forall (fun e => is_fs_event e = true) evs ->
  spawned (evs ++ rest) = spawned rest.
Proof.
  induction 1 as [|e evs He _ IH]; [reflexivity|].
  destruct e; try discriminate He; exact IH.
Qed.

Lemma spawned_listing names rest :
  spawned (rev (map (fun f => Stderr ((str " - " ++ f) ++ [LF])) names) ++ rest)
  = spawned rest.
Proof.
  rewrite <- map_rev. induction (rev names) as [|f l IH]; [reflexivity|exact IH].
Qed.

Lemma issued_skip evs rest :
  Forall (fun e => is_fs_event e = true) evs ->
  issued (evs ++ rest) = issued rest.
Proof.
  induction 1 as [|e evs He _ IH]; [reflexivity|].
  destruct e; try discriminate He; exact IH.
Qed.

Lemma issued_listing names rest :
  issued (rev (map (fun f => Stderr ((str " - " ++ f) ++ [LF])) names) ++ rest)
  = issued rest.
Proof.
  rewrite <- map_rev. induction (rev names) as [|f l IH]; [reflexivity|exact IH].
Qed.

Lemma listing_has names f :
  In f names -> is_forbidden_path f = true ->
  In (Stderr ((str " - " ++ f) ++ [LF]))
    (rev (map (fun f => Stderr ((str " - " ++ f) ++ [LF]))
            (filter (fun f => is_forbidden_path f = true) names))).
Proof.
  intros Hin Hf. apply in_rev. rewrite rev_involutive.
  apply (in_map (fun f => Stderr ((str " - " ++ f) ++ [LF]))).
  apply list_elem_of_In, list_elem_of_filter.
  split; [exact Hf|now apply list_elem_of_In].
Qed.

Lemma forbidden_Exists_filter (names : list (list N)) :
  Exists (fun f => is_forbidden_path f = true) names ->
  filter (fun f => is_forbidden_path f = true) names <> [].
Proof.
  intros H E. apply filter_empty_Forall in E.
  apply List.Exists_exists in H as (f & Hin & Hf).
  apply (proj1 (List.Forall_forall _ _) E) in Hin. congruence.
Qed.

Ltac gate_mismatch :=
  exfalso;
  match goal with
  | Hex : Exists _ (splitlines false ?o), Hif : nonempty (splitlines false ?o) = false |- _ =>
      rewrite (nonempty_false _ Hif) in Hex; inversion Hex
  | Hex : Exists _ (splitlines false ?o),
    Hif : nonempty (filter _ (splitlines false ?o)) = false |- _ =>
      exact (forbidden_Exists_filter _ Hex (nonempty_false _ Hif))
  | Hor : _ <> 0%Z \/ strip ?o <> [], Hif : nonempty (strip ?o) = false |- _ =>
      destruct Hor as [Hor|Hor]; [congruence|exact (Hor (nonempty_false _ Hif))]
  | H : ?rc <> 0%Z |- _ => congruence
  end.

Ltac pick_branch :=
  first
  [ match goal with
    | E : sr [str "git"; str "rev-parse"; str "--abbrev-ref"; str "HEAD"] true _
          = (Ended _ (Some ?o), _) |- _ => exists (strip o)
    end
  | exists (@nil N) ].

Ltac spawned_log :=
  cbn [spawned issued]; rewrite ?spawned_listing, ?issued_listing;
  cbn [spawned issued];
  repeat match goal with
  | Hevs : Forall (fun e => is_fs_event e = true) ?evs |- _ =>
      rewrite ?(spawned_skip evs _ Hevs), ?(issued_skip evs _ Hevs);
      cbn [spawned issued]; clear Hevs
  end.

Ltac status_tac :=
  unfold status_decides; cbn [last_spawn exit_status head];
  first
  [ right; split; reflexivity
  | left; do 2 eexists; split; [reflexivity|]; split; [reflexivity|];
    split; intros; solve [reflexivity | contradiction | congruence] ].





(** C3.  When a path of the allowlist is equal to, or starts with, a
    forbidden prefix, the run ends in an exception with a non-zero status
    before any file is examined, read or written.  The exception is
    [SystemExit] whenever the root query ran and its output decoded; when
    the query succeeded and printed a root, the exit names the offending
    path. *)
Theorem forbidden_allowlist_aborts_first allowlist args w :
  (exists f prefix rest,
     In f allowlist /\ In prefix FORBIDDEN_PATH_PREFIXES /\ f = prefix ++ rest) ->
  let run := main_on sr enc allowlist args (start w) in
  (exists e, fst run = Raise e)
  /\ exit_status (fst run) <> 0%Z
  /\ Forall (fun e => is_fs_event e = false) (log (snd run))
  /\ (forall how out w',
        sr GIT_TOPLEVEL true w = (Ended how (Some out), w') ->
        (exists arg, fst run = Raise (SystemExit arg))
        /\ (returncode_of how = 0%Z -> strip out <> [] ->
            exists f, In f allowlist /\ is_forbidden_path f = true
              /\ fst run
                 = Raise (SystemExit
                            (ExitMsg (str "Refusing to stage forbidden path: " ++ f))))).
Proof.
  intros (f & prefix & rest & Hin & Hpre & ->).
  pose proof (is_forbidden_prefixed prefix rest Hpre) as Hbad.
  unfold GIT_TOPLEVEL.
  exec_keep ltac:(exfalso; exact (not_forbidden_in _ _ Hsafe Hin Hbad)).
  all: split; [eexists; reflexivity|].
  all: split; [cbn [exit_status]; first [discriminate | now apply failure_status]|].
  all: split; [repeat constructor|].
  all: intros how' out' w' Heq; try discriminate Heq.
  all: injection Heq as <- <- <-; split; [eexists; reflexivity|].
  all: intros Hzero Hroot; try congruence.
  all: try (exfalso; apply Hroot; apply nonempty_false; assumption).
  all: eexists; split; [eassumption|]; split; [assumption|reflexivity].
Qed.

(** C5.  When the query that follows staging reports no staged name, the
    run returns 0 and neither a commit nor a push is among its events. *)
Theorem nothing_staged_exits_zero allowlist args w :
  let run := main_on sr enc allowlist args (start w) in
  forall out,
    In (Spawn GIT_STAGED true 0%Z out) (log (snd run)) ->
    splitlines false out = [] ->
    fst run = Ret 0%Z
    /\ Forall (fun e => keeps_history e = true) (log (snd run)).
Proof.
  exec.
  all: intros out' Hin Hnil; in_log Hin; try other_event Hin.
  all: injection Hin as ?; subst.
  all: try staged_mismatch.
  all: split; [reflexivity|log_forall].
Qed.

(** C6 (amended).  Without the dry-run flag, with a message that is empty
    once stripped, and with staged names reported none of which is
    forbidden, the run returns 4 and no commit is among its events. *)
Theorem empty_message_exits_4 allowlist args w :
  dry_run args = false ->
  strip (message args) = [] ->
  let run := main_on sr enc allowlist args (start w) in
  forall out,
    In (Spawn GIT_STAGED true 0%Z out) (log (snd run)) ->
    splitlines false out <> [] ->
    Forall (fun f => is_forbidden_path f = false) (splitlines false out) ->
    fst run = Ret 4%Z
    /\ Forall (fun e => invokes (str "commit") e = false) (log (snd run)).
Proof.
  destruct args as [msg dry]. cbn [dry_run message]. intros -> Hmsg.
  exec.
  all: intros out' Hin Hne Hok; in_log Hin; try other_event Hin.
  all: injection Hin as ?; subst.
  all: try staged_mismatch.
  all: try (rewrite Hmsg in *; discriminate).
  all: split; [reflexivity|log_forall].
Qed.

(** C4 (amended).  With the dry-run flag set, no commit and no push is
    among the events of the run, whatever is staged.  The flag is looked
    at only after the staged names have been checked: unless the run
    prints the dry-run notice, it is, result and events, the run that the
    same invocation makes without the flag.  When it prints the notice,
    normalization and staging have taken place, and [git status] is run
    as a command that must succeed: the exit status is its return code
    modulo 256, so 0 when it succeeds.  Normalization and staging have
    taken place in every dry run that gets as far as asking which names
    are staged, so also in one that ends there, with nothing staged or
    with a forbidden name staged. *)
Theorem dry_run_never_commits allowlist args w :
  dry_run args = true ->
  let run := main_on sr enc allowlist args (start w) in
  let plain := main_on sr enc allowlist (mkArgs (message args) false) (start w) in
  Forall (fun e => keeps_history e = true) (log (snd run))
  /\ (~ In DRY_RUN_NOTICE (log (snd run)) -> run = plain)
  /\ (In DRY_RUN_NOTICE (log (snd run)) ->
      normalization_ran sr allowlist w (log (snd run))
      /\ (exists out, In (Spawn (GIT_ADD allowlist) false 0%Z out) (log (snd run)))
      /\ status_decides (fst run) (log (snd run)))
  /\ (forall rc out,
        In (Spawn GIT_STAGED true rc out) (log (snd run)) ->
        normalization_ran sr allowlist w (log (snd run))
        /\ (exists out', In (Spawn (GIT_ADD allowlist) false 0%Z out')
                           (log (snd run)))).
Proof.
  destruct args as [msg dry]. cbn [dry_run message]. intros ->. cbv zeta.
  match goal with
  | |- context [main_on sr enc allowlist (mkArgs msg true) ?st] =>
      set (run := main_on sr enc allowlist (mkArgs msg true) st) in *;
      assert (Hrun : run = main_on sr enc allowlist (mkArgs msg true) st)
        by reflexivity;
      clearbody run; norm_in Hrun; repeat step_in Hrun; subst run;
      cbn [fst snd log world]
  end.
  all: split; [log_forall|split; [|split]].
  all: try (intros Hnot;
            first [ exfalso; apply Hnot; unfold DRY_RUN_NOTICE; solve [find_in]
                  | exec; reflexivity ]).
  all: first [ intros rc' out' Hin | intros Hin ]; in_log Hin; try other_event Hin.
  all: clear Hin; repeat match goal with |- _ /\ _ => split end.
  all: lazymatch goal with
       | |- normalization_ran _ _ _ _ =>
           unfold normalization_ran, GIT_TOPLEVEL, GIT_DIFF_CHECK;
           do 9 eexists;
           split; [eassumption|]; split; [symmetry; eassumption|]; split;
           [exact Hnorm|]; split;
           [cbn [log];
            repeat first
              [ apply suffix_cons_r
              | match goal with
                | |- _ `suffix_of` (rev _ ++ _) => apply suffix_app_r
                end ];
            exists []; reflexivity|];
           split; [cbn [world]; eassumption|];
           match goal with
           | Hc : 0%Z = returncode_of ?h |- In (Spawn _ _ (returncode_of ?h) _) _ =>
               rewrite <- Hc
           end; find_in
       | |- status_decides _ _ => status_tac
       | |- _ => eexists; find_in
       end.
Qed.

(** C10 (amended).  With the dry-run flag set, the empty-message check is
    never reached: [main] never returns 4, whatever the message.  When
    staged names are reported and none of them is forbidden, [git status]
    is the command run next and last, and the exit status is its return
    code modulo 256: 0 when it succeeds. *)
Theorem dry_run_skips_message_check allowlist args w :
  dry_run args = true ->
  let run := main_on sr enc allowlist args (start w) in
  fst run <> Ret 4%Z
  /\ (forall out,
        In (Spawn GIT_STAGED true 0%Z out) (log (snd run)) ->
        splitlines false out <> [] ->
        Forall (fun f => is_forbidden_path f = false) (splitlines false out) ->
        status_decides (fst run) (log (snd run))).
Proof.
  destruct args as [msg dry]. cbn [dry_run]. intros ->.
  exec.
  all: split; [discriminate|].
  all: intros out' Hin Hne Hok; in_log Hin; try other_event Hin.
  all: injection Hin as ?; subst.
  all: try staged_mismatch.
  all: status_tac.
Qed.

(** *** Further properties of [run], [repo_root] and [main] *)

(** X1.  [run] issues one command, and what comes of it tells what
    happened.  A returned process carries the return code of the command,
    which is 0 whenever [check] is set, and the decoded output exactly
    when it was captured.  [SystemExit] is raised only with [check] set,
    and carries the command's own non-zero return code.
    [UnicodeDecodeError] is raised only when the output was captured and
    did not decode, whatever [check] says.  [OSError] is raised only when
    the command could not be started, and nothing has happened then. *)
Theorem run_outcome cmd check capture st :
  let res := run sr cmd check capture st in
  match fst res with
  | Ret p =>
      exists how output,
        sr cmd capture (world st) = (Ended how output, world (snd res))
        /\ returncode p = returncode_of how
        /\ (check = true -> returncode p = 0%Z)
        /\ stdout p = (if capture then output else None)
        /\ (capture = true -> output <> None)
        /\ spawned (log (snd res)) = (cmd, returncode p) :: spawned (log st)
  | Raise (SystemExit (ExitCode n)) =>
      exists how output,
        sr cmd capture (world st) = (Ended how output, world (snd res))
        /\ check = true
        /\ n = returncode_of how /\ n <> 0%Z
        /\ (capture = true -> output <> None)
        /\ spawned (log (snd res)) = (cmd, n) :: spawned (log st)
  | Raise UnicodeDecodeError =>
      capture = true
      /\ (exists how, sr cmd true (world st) = (Ended how None, world (snd res)))
      /\ log (snd res) = Garbled cmd :: log st
  | Raise OSError =>
      snd res = st /\ exists w', sr cmd capture (world st) = (NotStarted, w')
  | Raise _ => False
  end.
Proof.
  cbv zeta. unfold run, bind, spawn, stderr_write, emit, ret, raise.
  destruct (sr cmd capture (world st)) as [[|how output] w'] eqn:E;
    [cbn [fst snd]; split; [reflexivity|now exists w']|].
  destruct capture.
  - destruct output as [out|]; cbn [fst snd world log returncode stdout];
      [|split; [reflexivity|]; split; [now exists how|reflexivity]].
    destruct check; cbn [andb].
    + destruct (Z.eqb_spec (returncode_of how) 0) as [Hz|Hnz]; cbn [negb].
      * cbn [fst snd world log returncode stdout spawned].
        exists how, (Some out). repeat split; intros; congruence.
      * cbn [andb stdout_or_empty stdout].
        destruct (nonempty out); cbn [fst snd world log spawned];
          exists how, (Some out); repeat split; intros; congruence.
    + cbn [fst snd world log returncode stdout spawned].
      exists how, (Some out). repeat split; intros; congruence.
  - cbn [fst snd world log returncode stdout]. destruct check; cbn [andb].
    + destruct (Z.eqb_spec (returncode_of how) 0) as [Hz|Hnz]; cbn [negb andb].
      * cbn [fst snd world log returncode stdout spawned].
        exists how, output. repeat split; intros; congruence.
      * cbn [fst snd world log spawned].
        exists how, output. repeat split; intros; congruence.
    + cbn [fst snd world log returncode stdout spawned].
      exists how, output. repeat split; intros; congruence.
Qed.

(** X2.  [repo_root] returns the path that [Path] makes of the stripped
    output of the root query, after the query succeeded and printed more
    than blanks; what it returns is never empty and is in the normal form
    of a [Path], so that reading it as a [Path] again changes nothing.  It
    raises the query's non-zero return code, or a message when the query
    succeeded and printed blanks only; [UnicodeDecodeError] when the output
    of the query did not decode; [OSError] when the query could not be
    started. *)
Theorem repo_root_outcome st :
  let res := repo_root sr st in
  match fst res with
  | Ret root =>
      exists out,
        last_spawn (log (snd res)) = Some (GIT_TOPLEVEL, 0%Z, out)
        /\ strip out <> [] /\ root = pure_path (strip out)
        /\ root <> [] /\ pure_path root = root
  | Raise (SystemExit (ExitCode n)) =>
      n <> 0%Z /\ exists out, last_spawn (log (snd res)) = Some (GIT_TOPLEVEL, n, out)
  | Raise (SystemExit (ExitMsg _)) =>
      exists out,
        last_spawn (log (snd res)) = Some (GIT_TOPLEVEL, 0%Z, out)
        /\ strip out = []
  | Raise UnicodeDecodeError =>
      log (snd res) = Garbled GIT_TOPLEVEL :: log st
  | Raise OSError => snd res = st
  | Raise _ => False
  end.
Proof.
  cbv zeta.
  set (res := repo_root sr st).
  assert (Hrun : res = repo_root sr st) by reflexivity.
  clearbody res. norm_in Hrun. repeat step_in Hrun. all: subst res.
  all: cbn [fst snd log last_spawn]; try reflexivity.
  - eexists. split; [reflexivity|]. split; [now apply nonempty_true|].
    split; [reflexivity|].
    split; [apply pure_path_nonempty|apply pure_path_idempotent].
  - eexists. split; [reflexivity|now apply nonempty_false].
  - split; [assumption|]. eexists. reflexivity.
  - split; [assumption|]. eexists. reflexivity.
Qed.

(** X11.  When a staged name is forbidden, [main] returns 3 right after
    the query that reported it: every forbidden staged name is listed on
    the error stream, no further command is run (nothing is unstaged,
    committed or pushed). *)
Theorem forbidden_staged_aborts allowlist args w :
  let run := main_on sr enc allowlist args (start w) in
  forall out,
    In (Spawn GIT_STAGED true 0%Z out) (log (snd run)) ->
    Exists (fun f => is_forbidden_path f = true) (splitlines false out) ->
    fst run = Ret 3%Z
    /\ last_spawn (log (snd run)) = Some (GIT_STAGED, 0%Z, out)
    /\ forall f, In f (splitlines false out) -> is_forbidden_path f = true ->
         In (Stderr ((str " - " ++ f) ++ [LF])) (log (snd run)).
Proof.
  exec.
  all: intros out' Hin Hex; in_log Hin; try other_event Hin.
  all: injection Hin as ?; subst.
  all: try gate_mismatch.
  all: split; [reflexivity|]; split;
       [cbn [last_spawn]; now rewrite last_spawn_listing|].
  all: intros f Hf Hforb; right; apply in_or_app; left; now apply listing_has.
Qed.

(** X12.  When the whitespace check has run, its output has decoded, and
    it returned non-zero or printed anything but blanks, [main] returns 2
    with the check as its last command, so nothing is staged, committed or
    pushed, and the output of the check is relayed on the error stream.
    When the output of the check does not decode, the run ends there with
    [UnicodeDecodeError] and status 1, and nothing is staged either. *)
Theorem whitespace_gate_stops_the_run allowlist args w :
  let run := main_on sr enc allowlist args (start w) in
  (forall rc out,
     In (Spawn GIT_DIFF_CHECK true rc out) (log (snd run)) ->
     rc <> 0%Z \/ strip out <> [] ->
     fst run = Ret 2%Z
     /\ last_spawn (log (snd run)) = Some (GIT_DIFF_CHECK, rc, out)
     /\ In (Stderr out) (log (snd run)))
  /\ (In (Garbled GIT_DIFF_CHECK) (log (snd run)) ->
      fst run = Raise UnicodeDecodeError
      /\ exit_status (fst run) = 1%Z
      /\ head (log (snd run)) = Some (Garbled GIT_DIFF_CHECK)).
Proof.
  exec.
  all: split;
    [ intros rc' out' Hin Hor; in_log Hin; try other_event Hin
    | intros Hin; in_log Hin; try other_event Hin ].
  all: try (injection Hin as ?; subst).
  all: try gate_mismatch.
  all: try (split; [reflexivity|]; split; [reflexivity|]; right; left; reflexivity).
  all: repeat split.
Qed.

(** X13.  The commands of any run, the one whose output did not decode
    included, are an initial part of one fixed sequence: the root query,
    the whitespace check, [git add] of the allowlist, the staged-names
    query, then [git status] in a dry run, or else the commit with the
    stripped message, the branch query and the push to [origin]; and
    every command but the last one that ran to its end returned 0. *)
Theorem commands_follow_the_script allowlist args w :
  let run := main_on sr enc allowlist args (start w) in
  (exists branch,
     map fst (rev (spawned (log (snd run))))
       `prefix_of` script_of allowlist args branch)
  /\ match spawned (log (snd run)) with
     | [] => True
     | _ :: earlier => Forall (fun c => snd c = 0%Z) earlier
     end
  /\ (exists branch,
        rev (issued (log (snd run))) `prefix_of` script_of allowlist args branch).
Proof.
  destruct args as [msg [|]]; exec.
  all: spawned_log.
  all: split; [|split];
    [ pick_branch; unfold script_of; cbn [dry_run message rev app map fst];
      eexists; reflexivity
    | repeat constructor
    | pick_branch; unfold script_of; cbn [dry_run message rev app map fst];
      eexists; reflexivity ].
Qed.

(** X14.  Outside a dry run [main] returns 0 in two cases only: nothing
    was staged, or the stripped message is not empty and the whole
    sequence of commands, up to the push of a branch with a non-empty
    name, was issued with every command returning 0. *)
Theorem success_means_pushed allowlist args w :
  dry_run args = false ->
  let run := main_on sr enc allowlist args (start w) in
  fst run = Ret 0%Z ->
  (exists out, last_spawn (log (snd run)) = Some (GIT_STAGED, 0%Z, out)
               /\ splitlines false out = [])
  \/ (strip (message args) <> []
      /\ exists branch,
           branch <> []
           /\ rev (spawned (log (snd run)))
              = map (fun c => (c, 0%Z)) (script_of allowlist args branch)).
Proof.
  destruct args as [msg dry]. cbn [dry_run message]. intros ->.
  exec.
  all: intros Hret; try discriminate Hret.
  all: first
    [ left; eexists; split; [reflexivity|apply nonempty_false; assumption]
    | right; split; [apply nonempty_true; assumption|];
      pick_branch; split; [apply nonempty_true; assumption|];
      spawned_log; reflexivity ].
Qed.

(** X15.  Every stat, read and write of a run of [main] concerns a path
    of the allowlist, read as a [Path] and resolved against the root that
    [repo_root] made of the stripped output of the root query, which
    succeeded before: no file outside the allowlist is ever looked at. *)
Theorem main_touches_allowlist_only allowlist args w :
  let run := main_on sr enc allowlist args (start w) in
  forall e,
    In e (log (snd run)) -> is_fs_event e = true ->
    exists out rel,
      In (Spawn GIT_TOPLEVEL true 0%Z out) (log (snd run))
      /\ In rel allowlist
      /\ event_path e
         = Some (resolve (pure_path (strip out)) (pure_path rel)).
Proof.
  exec.
  all: intros e Hin Hfs; in_log Hin; try (subst e; discriminate Hfs).
  all: try (apply listing_in in Hin as [f0 ->]; discriminate Hfs).
  all: cbn [world cwd] in Hscope.
  all: destruct (proj1 (List.Forall_forall _ _) Hscope e Hin) as (rel & Hrel & Hp).
  all: eexists _, rel; split; [find_in|split; assumption].
Qed.

End MainRuns.

(** *** Evaluations of [main] on scripted tools *)

Section MainExamples.



(** Other ends of a run: a root query killed by signal 15 is passed on as
    status 241; output of the whitespace check that does not decode, and
    a terminal that cannot show the ellipsis of the progress messages, end
    the run with status 1; [argparse] ends it with 2 or 0 by itself. *)
Example other_exits :
  (let run := main Demo.replay Demo.utf8 (Parsed (mkArgs DEFAULT_MESSAGE false))
                (start (Demo.bare [Demo.killed 15])) in
   fst run = Raise (SystemExit (ExitCode (-15))) /\ exit_status (fst run) = 241%Z)
  /\ (let run := main Demo.replay Demo.utf8 (Parsed (mkArgs DEFAULT_MESSAGE false))
                   (start (Demo.bare [Demo.ok (str "/repo" ++ [LF]);
                                      Ended (Exited 2) None])) in
      fst run = Raise UnicodeDecodeError /\ exit_status (fst run) = 1%Z)
  /\ (let run := main Demo.replay Demo.ascii_only
                   (Parsed (mkArgs DEFAULT_MESSAGE false))
                   (start (Demo.bare [Demo.ok (str "/repo" ++ [LF])])) in
      fst run = Raise UnicodeEncodeError /\ exit_status (fst run) = 1%Z)
  /\ exit_status (fst (main Demo.replay Demo.utf8 UsageError (start (Demo.bare []))))
     = 2%Z
  /\ exit_status (fst (main Demo.replay Demo.utf8 HelpShown (start (Demo.bare []))))
     = 0%Z.
Proof. vm_compute. repeat split; reflexivity. Qed.

Lemma forbidden_allowlist_aborts_first_witness :
  let run := main_on Demo.replay Demo.utf8 [str "src/a.ts"; str ".env.local"]
               (mkArgs DEFAULT_MESSAGE false)
               (start (Demo.bare [Demo.ok (str "/repo" ++ [LF])])) in
  exit_status (fst run) <> 0%Z
  /\ Forall (fun e => is_fs_event e = false) (log (snd run))
  /\ exists f, In f [str "src/a.ts"; str ".env.local"]
       /\ is_forbidden_path f = true
       /\ fst run = Raise (SystemExit
                             (ExitMsg (str "Refusing to stage forbidden path: " ++ f))).
Proof.
  destruct (forbidden_allowlist_aborts_first Demo.replay Demo.utf8
              [str "src/a.ts"; str ".env.local"] (mkArgs DEFAULT_MESSAGE false)
              (Demo.bare [Demo.ok (str "/repo" ++ [LF])]))
    as (_ & H2 & H3 & H4).
  - exists (str ".env.local"), (str ".env"), (str ".local").
    split; [right; left; reflexivity|]. split; [left; reflexivity|reflexivity].
  - split; [exact H2|]. split; [exact H3|].
    destruct (H4 (Exited 0) (str "/repo" ++ [LF]) (Demo.bare []) eq_refl) as [_ H5].
    apply H5; [reflexivity|]. vm_compute. discriminate.
Defined.

(** C4 as stated fails where [git status] fails: the dry run has reached
    the short-circuit and exits with that command's status, not 0. *)
Lemma dry_run_counterexample :
  let run := Demo.staged_one true (Demo.failed 1 []) in
  In DRY_RUN_NOTICE (log (snd run))
  /\ fst run = Raise (SystemExit (ExitCode 1))
  /\ exit_status (fst run) = 1%Z.
Proof. vm_compute. split; [|split; reflexivity]. repeat (first [left; reflexivity | right]). Qed.

Lemma dry_run_never_commits_witness :
  let run := Demo.staged_one true (Demo.ok []) in
  Forall (fun e => keeps_history e = true) (log (snd run))
  /\ normalization_ran Demo.replay [str "a.txt"]
       (Demo.one_file (str "x " ++ [CR; LF])
          [Demo.ok (str "/repo" ++ [LF]); Demo.ok []; Demo.ok [];
           Demo.ok (str "a.txt" ++ [LF]); Demo.ok []])
       (log (snd run))
  /\ (exists out, In (Spawn (GIT_ADD [str "a.txt"]) false 0%Z out) (log (snd run)))
  /\ status_decides (fst run) (log (snd run)).
Proof.
  destruct (dry_run_never_commits Demo.replay Demo.utf8 [str "a.txt"]
              (mkArgs (str "   ") true)
              (Demo.one_file (str "x " ++ [CR; LF])
                 [Demo.ok (str "/repo" ++ [LF]); Demo.ok []; Demo.ok [];
                  Demo.ok (str "a.txt" ++ [LF]); Demo.ok []]) eq_refl)
    as (H1 & _ & H2 & _).
  split; [exact H1|]. apply H2.
  vm_compute. repeat (first [left; reflexivity | right]).
Defined.

(** A dry run that stops before the short-circuit is the run made without
    the flag: here both return 3 on a forbidden staged name. *)
Example dry_run_same_as_plain :
  Demo.staged_forbidden true = Demo.staged_forbidden false
  /\ fst (Demo.staged_forbidden true) = Ret 3%Z.
Proof. vm_compute. split; reflexivity. Qed.

Lemma nothing_staged_exits_zero_witness :
  fst Demo.staged_nothing = Ret 0%Z
  /\ Forall (fun e => keeps_history e = true) (log (snd Demo.staged_nothing)).
Proof.
  apply (nothing_staged_exits_zero Demo.replay Demo.utf8 [str "a.txt"]
           (mkArgs DEFAULT_MESSAGE false)
           (Demo.one_file (str "x " ++ [CR; LF])
              [Demo.ok (str "/repo" ++ [LF]); Demo.ok []; Demo.ok []; Demo.ok []])
           []).
  - vm_compute. repeat (first [left; reflexivity | right]).
  - reflexivity.
Defined.

(** C6 as stated fails where a staged name is forbidden: the run returns 3
    before the message is looked at. *)
Lemma empty_message_counterexample :
  let run := Demo.staged_forbidden false in
  strip (str "   ") = []
  /\ In (Spawn GIT_STAGED true 0%Z (str ".env.local" ++ [LF])) (log (snd run))
  /\ splitlines false (str ".env.local" ++ [LF]) = [str ".env.local"]
  /\ fst run = Ret 3%Z.
Proof.
  vm_compute. split; [reflexivity|]. split; [|split; reflexivity].
  repeat (first [left; reflexivity | right]).
Qed.

Lemma empty_message_exits_4_witness :
  let run := Demo.staged_one false (Demo.ok []) in
  fst run = Ret 4%Z
  /\ Forall (fun e => invokes (str "commit") e = false) (log (snd run)).
Proof.
  apply (empty_message_exits_4 Demo.replay Demo.utf8 [str "a.txt"]
           (mkArgs (str "   ") false)
           (Demo.one_file (str "x " ++ [CR; LF])
              [Demo.ok (str "/repo" ++ [LF]); Demo.ok []; Demo.ok [];
               Demo.ok (str "a.txt" ++ [LF]); Demo.ok []])
           eq_refl eq_refl (str "a.txt" ++ [LF])).
  - vm_compute. repeat (first [left; reflexivity | right]).
  - vm_compute. discriminate.
  - vm_compute. repeat constructor.
Defined.

(** C10 as stated fails twice over: with a forbidden staged name the dry
    run exits with 3, and with a failing [git status] it exits with that
    command's status. *)
Lemma dry_run_message_counterexample :
  (let run := Demo.staged_forbidden true in
   In (Spawn GIT_STAGED true 0%Z (str ".env.local" ++ [LF])) (log (snd run))
   /\ exit_status (fst run) = 3%Z)
  /\ (let run := Demo.staged_one true (Demo.failed 128 []) in
      In (Spawn GIT_STAGED true 0%Z (str "a.txt" ++ [LF])) (log (snd run))
      /\ exit_status (fst run) = 128%Z).
Proof.
  vm_compute. split; (split; [|reflexivity]);
    repeat (first [left; reflexivity | right]).
Qed.

Lemma dry_run_skips_message_check_witness :
  let run := Demo.staged_one true (Demo.ok []) in
  fst run <> Ret 4%Z /\ status_decides (fst run) (log (snd run)).
Proof.
  destruct (dry_run_skips_message_check Demo.replay Demo.utf8 [str "a.txt"]
              (mkArgs (str "   ") true)
              (Demo.one_file (str "x " ++ [CR; LF])
                 [Demo.ok (str "/repo" ++ [LF]); Demo.ok []; Demo.ok [];
                  Demo.ok (str "a.txt" ++ [LF]); Demo.ok []]) eq_refl) as [H1 H2].
  split; [exact H1|]. apply (H2 (str "a.txt" ++ [LF])).
  - vm_compute. repeat (first [left; reflexivity | right]).
  - vm_compute. discriminate.
  - vm_compute. repeat constructor.
Defined.

(** A dry run whose [git status] is killed by signal 15: the return code
    is -15 and the status of the process is 241. *)
Example dry_run_killed_status :
  let run := Demo.staged_one true (Demo.killed 15) in
  last_spawn (log (snd run)) = Some (GIT_STATUS, (-15)%Z, [])
  /\ exit_status (fst run) = 241%Z.
Proof. vm_compute. split; reflexivity. Qed.

End MainExamples.

(** *** Evaluations for the further properties *)

Section MoreExamples.

Lemma changed_iff_not_tidy_witness :
  fst (normalize_text_file (str "a.txt")
         (start (Demo.one_file (str "x " ++ [CR; LF]) tt))) = Ret true
  <-> tidy (str "x " ++ [CR; LF]) = false.
Proof.
  apply (changed_iff_not_tidy (start (Demo.one_file (str "x " ++ [CR; LF]) tt))
           (str "a.txt") (str "x " ++ [CR; LF])).
  - vm_compute. reflexivity.
  - vm_compute. eexists. reflexivity.
Defined.

Lemma normalization_only_deletes_blanks_witness :
  exists out,
    files (world (snd (normalize_text_file (str "a.txt")
                         (start (Demo.one_file (str "x " ++ [CR; LF]) tt)))))
      !! resolve (str "/repo") (str "a.txt") = Some (File out)
    /\ out `sublist_of` (str "x " ++ [CR; LF])
    /\ filter (fun c => is_kept c = true) out
       = filter (fun c => is_kept c = true) (str "x " ++ [CR; LF]).
Proof.
  apply (normalization_only_deletes_blanks
           (start (Demo.one_file (str "x " ++ [CR; LF]) tt))
           (str "a.txt") (str "x " ++ [CR; LF])).
  vm_compute. reflexivity.
Defined.

Lemma normalize_text_file_stays_in_place_witness :
  files (world (snd (normalize_text_file (str "a.txt")
                       (start (Demo.one_file (str "x " ++ [CR; LF]) tt)))))
    !! str "/repo/b.txt"
  = files (world (start (Demo.one_file (str "x " ++ [CR; LF]) tt)))
      !! str "/repo/b.txt".
Proof.
  destruct (normalize_text_file_stays_in_place
              (start (Demo.one_file (str "x " ++ [CR; LF]) tt)) (str "a.txt"))
    as (_ & _ & H).
  destruct (H (str "/repo/b.txt")) as [H1 _]. apply H1.
  vm_compute. intros E. discriminate E.
Defined.

(** Entries of the list are read as a [Path]: [./a.txt] names the file
    [a.txt], which is cleaned, and the entry is returned as it was given;
    [a.txt/] names it too, and finds it clean by then. *)
Example path_forms_scenario :
  let run := normalize_files [str "./a.txt"; str "a.txt/"]
               (start (Demo.one_file (str "x " ++ [CR; LF]) tt)) in
  fst run = Ret [str "./a.txt"]
  /\ files (world (snd run)) !! str "/repo/a.txt" = Some (File (str "x" ++ [LF])).
Proof. vm_compute. split; reflexivity. Qed.

Lemma forbidden_staged_aborts_witness :
  fst (Demo.staged_forbidden false) = Ret 3%Z
  /\ In (Stderr ((str " - " ++ str ".env.local") ++ [LF]))
       (log (snd (Demo.staged_forbidden false))).
Proof.
  destruct (forbidden_staged_aborts Demo.replay Demo.utf8 [str "a.txt"]
              (mkArgs (str "   ") false)
              (Demo.one_file (str "x " ++ [CR; LF])
                 [Demo.ok (str "/repo" ++ [LF]); Demo.ok []; Demo.ok [];
                  Demo.ok (str ".env.local" ++ [LF])])
              (str ".env.local" ++ [LF])) as (H1 & _ & H3).
  - vm_compute. repeat (first [left; reflexivity | right]).
  - vm_compute. left. reflexivity.
  - split; [exact H1|]. apply H3; [vm_compute; left; reflexivity|reflexivity].
Defined.

Lemma whitespace_gate_stops_the_run_witness :
  fst Demo.gate_fails = Ret 2%Z
  /\ last_spawn (log (snd Demo.gate_fails))
     = Some (GIT_DIFF_CHECK, 2%Z, str "b.txt:1: trailing whitespace." ++ [LF])
  /\ In (Stderr (str "b.txt:1: trailing whitespace." ++ [LF]))
       (log (snd Demo.gate_fails)).
Proof.
  destruct (whitespace_gate_stops_the_run Demo.replay Demo.utf8 [str "a.txt"]
              (mkArgs DEFAULT_MESSAGE false)
              (Demo.one_file (str "x " ++ [CR; LF])
                 [Demo.ok (str "/repo" ++ [LF]);
                  Demo.failed 2 (str "b.txt:1: trailing whitespace." ++ [LF])]))
    as [H _].
  apply H.
  - vm_compute. repeat (first [left; reflexivity | right]).
  - left. discriminate.
Defined.

(** The whitespace check echoes a line of a file that is not UTF-8, which
    normalization has left alone: its output does not decode, and the run
    ends with [UnicodeDecodeError]. *)
Example garbled_gate_scenario :
  let run := main_on Demo.replay Demo.utf8 [str "a.txt"]
               (mkArgs DEFAULT_MESSAGE false)
               (start (Demo.one_file [255; SPACE; LF]
                         [Demo.ok (str "/repo" ++ [LF]); Ended (Exited 2) None])) in
  fst run = Raise UnicodeDecodeError
  /\ exit_status (fst run) = 1%Z
  /\ head (log (snd run)) = Some (Garbled GIT_DIFF_CHECK)
  /\ files (world (snd run)) !! str "/repo/a.txt" = Some (File [255; SPACE; LF]).
Proof. vm_compute. repeat split; reflexivity. Qed.

Lemma success_means_pushed_witness :
  (exists out, last_spawn (log (snd Demo.full_run)) = Some (GIT_STAGED, 0%Z, out)
               /\ splitlines false out = [])
  \/ (strip DEFAULT_MESSAGE <> []
      /\ exists branch,
           branch <> []
           /\ rev (spawned (log (snd Demo.full_run)))
              = map (fun c => (c, 0%Z))
                  (script_of [str "a.txt"] (mkArgs DEFAULT_MESSAGE false) branch)).
Proof.
  apply (success_means_pushed Demo.replay Demo.utf8 [str "a.txt"]
           (mkArgs DEFAULT_MESSAGE false)
           (Demo.one_file (str "x " ++ [CR; LF])
              [Demo.ok (str "/repo" ++ [LF]); Demo.ok []; Demo.ok [];
               Demo.ok (str "a.txt" ++ [LF]); Demo.ok [];
               Demo.ok (str "main" ++ [LF]); Demo.ok []])).
  - reflexivity.
  - vm_compute. reflexivity.
Defined.

Lemma main_touches_allowlist_only_witness :
  exists out rel,
    In (Spawn GIT_TOPLEVEL true 0%Z out) (log (snd Demo.staged_nothing))
    /\ In rel [str "a.txt"]
    /\ event_path (WriteText (str "/repo/a.txt") (str "x" ++ [LF]))
       = Some (resolve (pure_path (strip out)) (pure_path rel)).
Proof.
  apply (main_touches_allowlist_only Demo.replay Demo.utf8 [str "a.txt"]
           (mkArgs DEFAULT_MESSAGE false)
           (Demo.one_file (str "x " ++ [CR; LF])
              [Demo.ok (str "/repo" ++ [LF]); Demo.ok []; Demo.ok []; Demo.ok []])).
  - vm_compute. repeat (first [left; reflexivity | right]).
  - reflexivity.
Defined.

(** The full run, spelled out. *)
Example full_run_commands :
  fst Demo.full_run = Ret 0%Z
  /\ map fst (rev (spawned (log (snd Demo.full_run))))
     = [GIT_TOPLEVEL; GIT_DIFF_CHECK; GIT_ADD [str "a.txt"]; GIT_STAGED;
        GIT_COMMIT (strip DEFAULT_MESSAGE); GIT_BRANCH; GIT_PUSH (str "main")].
Proof. vm_compute. split; reflexivity. Qed.

End MoreExamples.
